(** * luma.gl: GPU queries, the animation loop's redraw flag and scenegraph groups

    A shallow embedding of
    - [Query] (webgl/classes/query.js): the WebGL2 query wrapper and its
      begin / end / poll life cycle,
    - the query manager it talks to (utils/query-manager),
    - [AnimationLoop.setNeedsRedraw] (core/animation-loop.js),
    - [Group.add] (scenegraph/group.js),
    - the rest of Group (constructor, remove, removeAll, traverse) and, of
      AnimationLoop, the frame timers, stop / waitForRender / toDataURL,
      setProps and the callback data,
    followed by the properties proved about them. *)

From Stdlib Require Import ZArith Floats.
From stdpp Require Import base option list gmap strings.

Open Scope Z_scope.

(** ** JavaScript preliminaries *)

(** A call either returns a value or throws. *)
Inductive result (A : Type) : Type :=
  | Returned (a : A)
  | Thrown (message : string).
Arguments Returned {A} a.
Arguments Thrown {A} message.

(** Modelled from the spec: the [assert] helper of utils/assert is not part of
    the sources at hand.  A failed assertion is a fatal contract violation: it
    throws; a successful one does nothing. *)
Definition assert (condition : bool) : result unit :=
  if condition then Returned tt else Thrown "luma.gl: assertion failed.".

(** ** The WebGL context, as far as [Query] uses it *)

Module GL.

(** GLenum constants of query.js. *)
Definition QUERY_COUNTER_BITS_EXT : Z := 0x8864.
Definition QUERY_RESULT : Z := 0x8866.
Definition QUERY_RESULT_AVAILABLE : Z := 0x8867.
Definition TIME_ELAPSED_EXT : Z := 0x88bf.
Definition TIMESTAMP_EXT : Z := 0x8e28.
Definition GPU_DISJOINT_EXT : Z := 0x8fbb.
Definition TRANSFORM_FEEDBACK_PRIMITIVES_WRITTEN : Z := 0x8c88.
Definition ANY_SAMPLES_PASSED : Z := 0x8c2f.
Definition ANY_SAMPLES_PASSED_CONSERVATIVE : Z := 0x8d6a.

(** [this.handle]: a WebGLQuery object, or null when queries are not
    supported ([_createHandle]). *)
Definition Handle : Type := option Z.

(** The calls [Query] issues on the context, recorded in order. *)
Inductive Call : Type :=
  | getQuery (target pname : Z)
  | queryCounter (handle : Handle) (target : Z)
  | beginQuery (target : Z) (handle : Handle)
  | endQuery (target : Z)
  | getQueryParameter (handle : Handle) (pname : Z)
  | getParameter (pname : Z).

(** The context is an external device.  Its record holds what the device
    would answer right now, and the log of the calls made so far.  The
    properties below quantify over every such record, so the device may
    change its answers freely between two calls of the program.  The calls
    that query.js wraps in try / catch (beginQuery, queryCounter) may throw;
    the others return, as query.js takes them to. *)
Record Context : Type := mkContext {
  webgl2 : bool;                        (* isWebGL2(gl) *)
  timerQuery : bool;                    (* hasFeatures(gl, FEATURES.TIMER_QUERY) *)
  queryValue : Z -> Z -> Z;             (* answer of gl.getQuery(target, pname) *)
  disjoint : bool;                      (* the GPU_DISJOINT_EXT flag *)
  beginQueryFails : Z -> Handle -> bool;    (* gl.beginQuery(target, handle) throws *)
  queryCounterFails : Handle -> Z -> bool;  (* gl.queryCounter(handle, target) throws *)
  resultAvailable : Handle -> bool;     (* QUERY_RESULT_AVAILABLE of a query object *)
  queryResult : Handle -> float;        (* QUERY_RESULT of a query object, a JS number *)
  calls : list Call
}.

Definition record (c : Call) (gl : Context) : Context :=
  mkContext (webgl2 gl) (timerQuery gl) (queryValue gl) (disjoint gl)
    (beginQueryFails gl) (queryCounterFails gl) (resultAvailable gl)
    (queryResult gl) (calls gl ++ [c]).

Definition clearDisjoint (gl : Context) : Context :=
  mkContext (webgl2 gl) (timerQuery gl) (queryValue gl) false
    (beginQueryFails gl) (queryCounterFails gl) (resultAvailable gl)
    (queryResult gl) (calls gl).

(** gl.getQuery(target, pname) *)
Definition do_getQuery (target pname : Z) (gl : Context) : Z * Context :=
  (queryValue gl target pname, record (getQuery target pname) gl).

(** gl.queryCounter(handle, target); [false] when the call throws. *)
Definition do_queryCounter (h : Handle) (target : Z) (gl : Context) : bool * Context :=
  (negb (queryCounterFails gl h target), record (queryCounter h target) gl).

(** gl.beginQuery(target, handle); [false] when the call throws. *)
Definition do_beginQuery (target : Z) (h : Handle) (gl : Context) : bool * Context :=
  (negb (beginQueryFails gl target h), record (beginQuery target h) gl).

(** gl.endQuery(target) *)
Definition do_endQuery (target : Z) (gl : Context) : Context :=
  record (endQuery target) gl.

(** gl.getQueryParameter(handle, GL_QUERY_RESULT_AVAILABLE): a GLboolean. *)
Definition do_getQueryResultAvailable (h : Handle) (gl : Context) : bool * Context :=
  (resultAvailable gl h, record (getQueryParameter h QUERY_RESULT_AVAILABLE) gl).

(** gl.getQueryParameter(handle, GL_QUERY_RESULT): a number. *)
Definition do_getQueryResult (h : Handle) (gl : Context) : float * Context :=
  (queryResult gl h, record (getQueryParameter h QUERY_RESULT) gl).

(** gl.getParameter(GL_GPU_DISJOINT_EXT).  "Querying the disjoint state
    resets it" (query.js). *)
Definition do_getDisjoint (gl : Context) : bool * Context :=
  (disjoint gl, clearDisjoint (record (getParameter GPU_DISJOINT_EXT) gl)).

End GL.

(** ** The query manager (utils/query-manager) *)

(** Query objects are compared by identity: a reference stands for the object. *)
Definition QueryRef : Type := positive.

(** The [onComplete] / [onError] functions a caller hands to a query.  They are
    opaque to the library: what matters is which one is invoked, and with what. *)
Inductive Callback : Type :=
  | noop                       (* const noop = x => x *)
  | userCallback (id : nat).

#[global] Instance Callback_eq_dec : EqDecision Callback.
Proof. solve_decision. Defined.

(** What the query code does besides talking to the context: the calls it
    makes on the manager, and the callbacks the manager invokes. *)
Inductive Event : Type :=
  | callBeginQuery (query : QueryRef) (onComplete onError : Callback)
  | callRejectQuery (query : QueryRef) (message : string)
  | callCancelQuery (query : QueryRef)
  | callPoll
  | invokeOnComplete (query : QueryRef) (f : Callback)
  | invokeOnError (query : QueryRef) (f : Callback) (message : string).

#[global] Instance Event_eq_dec : EqDecision Event.
Proof. solve_decision. Defined.

(** The events that are callback invocations. *)
Definition invocation (e : Event) : bool :=
  match e with
  | invokeOnComplete _ _ | invokeOnError _ _ _ => true
  | _ => false
  end.

(** The [onError] invocations made for one query: which function, with what
    message. *)
Definition onErrorCalls (query : QueryRef) (evs : list Event) : list (Callback * string) :=
  omap (λ e, match e with
             | invokeOnError query' f message =>
                 if decide (query' = query) then Some (f, message) else None
             | _ => None
             end) evs.

Module QueryManager.

(** Modelled from the spec: query-manager.js is not part of the sources at
    hand.  An entry of [pendingQueries], the "set of Query objects ... each
    paired with its completion/error callback"; the class of the query object
    is kept with it, for the per-type sweep of [poll]. *)
Record Pending : Type := mkPending {
  queryType : string;
  onComplete : Callback;
  onError : Callback
}.

(** Modelled from the spec: query-manager.js is not part of the sources at
    hand.  What [setInvalidator] registers for a query type: "a disjoint-state
    checker function and an error message". *)
Record Invalidator : Type := mkInvalidator {
  errorMessage : string;
  checkInvalid : GL.Context -> bool * GL.Context
}.

(** Modelled from the spec: query-manager.js is not part of the sources at
    hand.  The manager's two tables. *)
Record State : Type := mkState {
  pendingQueries : gmap QueryRef Pending;
  invalidators : gmap string Invalidator
}.

Definition empty : State := mkState ∅ ∅.

(** The program state the query code runs in: the context, the manager
    (a module-level singleton) and the events so far. *)
Record World : Type := mkWorld {
  gl : GL.Context;
  manager : State;
  events : list Event
}.

Definition set_gl (g : GL.Context) (w : World) : World :=
  mkWorld g (manager w) (events w).
Definition set_pending (p : gmap QueryRef Pending) (w : World) : World :=
  mkWorld (gl w) (mkState p (invalidators (manager w))) (events w).
Definition emit (e : Event) (w : World) : World :=
  mkWorld (gl w) (manager w) (events w ++ [e]).

(** The events of [after] that [before] did not have yet. *)
Definition newEvents (before after : World) : list Event :=
  drop (length (events before)) (events after).

(** Modelled from the spec: query-manager.js is not part of the sources at
    hand.  "registers, once, the predicate used by poll for a given query
    type.  Multiple registrations for the same type overwrite the previous
    one." *)
Definition setInvalidator (type : string) (message : string)
    (check : GL.Context -> bool * GL.Context) (m : State) : State :=
  mkState (pendingQueries m) (<[type := mkInvalidator message check]> (invalidators m)).

(** Modelled from the spec: query-manager.js is not part of the sources at
    hand.  "adds query to the pending set with its callback pair.  If an
    entry already exists for that query object ... the prior callbacks are
    dropped without invocation, and the new pair replaces them." *)
Definition beginQuery (query : QueryRef) (type : string) (onComplete onError : Callback)
    (w : World) : World :=
  let w := emit (callBeginQuery query onComplete onError) w in
  set_pending (<[query := mkPending type onComplete onError]> (pendingQueries (manager w))) w.

(** Modelled from the spec: query-manager.js is not part of the sources at
    hand.  "invokes the registered onError with message, removes the entry.
    Idempotent - rejecting an already-resolved/absent query is a no-op." *)
Definition rejectQuery (query : QueryRef) (message : string) (w : World) : World :=
  let w := emit (callRejectQuery query message) w in
  match pendingQueries (manager w) !! query with
  | Some entry =>
      let w := emit (invokeOnError query (onError entry) message) w in
      set_pending (delete query (pendingQueries (manager w))) w
  | None => w
  end.

(** Modelled from the spec: query-manager.js is not part of the sources at
    hand.  "removes the entry without invoking either callback." *)
Definition cancelQuery (query : QueryRef) (w : World) : World :=
  let w := emit (callCancelQuery query) w in
  set_pending (delete query (pendingQueries (manager w))) w.

(** Modelled from the spec: query-manager.js is not part of the sources at
    hand.  "every pending query of that type", as the references [poll] walks
    over. *)
Definition pendingOfType (type : string) (p : gmap QueryRef Pending) : list QueryRef :=
  (map_to_list (filter (λ kv, queryType kv.2 = type) p)).*1.

(** Modelled from the spec: query-manager.js is not part of the sources at
    hand.  One registered type of [poll]: "checks the type's disjoint-state
    predicate; if disjoint, rejects every pending query of that type with the
    type's fixed error message and removes them from the pending set."  The
    predicate is read once per type and pass. *)
Definition invalidateQueryType (type : string) (inv : Invalidator) (w : World) : World :=
  let '(invalid, g) := checkInvalid inv (gl w) in
  let w := set_gl g w in
  if invalid
  then foldl (λ w query, rejectQuery query (errorMessage inv) w) w
         (pendingOfType type (pendingQueries (manager w)))
  else w.

(** Modelled from the spec: query-manager.js is not part of the sources at
    hand.  "for every pending query across all types registered via
    setInvalidator, checks the type's disjoint-state predicate ..." *)
Definition poll (w : World) : World :=
  foldl (λ w ti, invalidateQueryType ti.1 ti.2 w) (emit callPoll w)
    (map_to_list (invalidators (manager w))).

End QueryManager.

(** ** Query (webgl/classes/query.js) *)

Module Query.
Import QueryManager.

Definition ERR_GPU_DISJOINT : string := "Disjoint GPU operation invalidated timer queries".
(** 'Timer queries require "EXT_disjoint_timer_query" extension' *)
Definition quote : string := String (Ascii.ascii_of_nat 34) EmptyString.
Definition ERR_TIMER_QUERY_NOT_SUPPORTED : string :=
  "Timer queries require " +:+ quote +:+ "EXT_disjoint_timer_query" +:+ quote +:+ " extension".

(** The class itself, as the manager's [queryType] key. *)
Definition class : string := "Query".

(** The fields of a Query object.  [target] is null or a GLenum.  ([promise]
    is a slot kept for the manager; query.js never reads it.) *)
Record t : Type := mkQuery {
  ref : QueryRef;
  handle : GL.Handle;
  target : option Z;
  queryPending : bool;
  onComplete : Callback;
  onError : Callback
}.

Definition set_target (x : option Z) (q : t) : t :=
  mkQuery (ref q) (handle q) x (queryPending q) (onComplete q) (onError q).
Definition set_queryPending (b : bool) (q : t) : t :=
  mkQuery (ref q) (handle q) (target q) b (onComplete q) (onError q).

(** The constructor: [target = null], [queryPending = false], callbacks
    default to [noop]. *)
Definition new (r : QueryRef) (h : GL.Handle) (onComplete onError : option Callback) : t :=
  mkQuery r h None false (default noop onComplete) (default noop onError).

(** static isSupported(gl, opts = []): the loop over [opts]. *)
Fixpoint isSupported_keys (webgl2 hasTimerQuery : bool) (opts : list string)
    (supported : bool) (g : GL.Context) : result bool * GL.Context :=
  match opts with
  | [] => (Returned supported, g)
  | key :: rest =>
      if String.eqb key "queries" then
        isSupported_keys webgl2 hasTimerQuery rest (supported && webgl2) g
      else if String.eqb key "timers" then
        isSupported_keys webgl2 hasTimerQuery rest (supported && hasTimerQuery) g
      else if String.eqb key "timestamps" then
        let '(queryCounterBits, g) :=
          if hasTimerQuery
          then GL.do_getQuery GL.TIMESTAMP_EXT GL.QUERY_COUNTER_BITS_EXT g
          else (0, g) in
        isSupported_keys webgl2 hasTimerQuery rest (supported && (0 <? queryCounterBits)) g
      else
        match assert false with
        | Returned _ => isSupported_keys webgl2 hasTimerQuery rest supported g
        | Thrown e => (Thrown e, g)
        end
  end.

Definition isSupported (g : GL.Context) (opts : list string) : result bool * GL.Context :=
  let webgl2 := GL.webgl2 g in
  let hasTimerQuery := GL.timerQuery g in
  isSupported_keys webgl2 hasTimerQuery opts (webgl2 || hasTimerQuery) g.

(** begin(target) *)
Definition begin (this : t) (target : Z) (w : World) : t * World :=
  if queryPending this then (this, w)
  else
    let w := beginQuery (ref this) class (onComplete this) (onError this) w in
    let this := set_target (Some target) this in
    let '(ok, g) := GL.do_beginQuery target (handle this) (gl w) in
    let w := set_gl g w in
    let w := if ok then w else rejectQuery (ref this) "Query not supported" w in
    (this, w).

Definition beginTimeElapsedQuery (this : t) (w : World) : t * World :=
  begin this GL.TIME_ELAPSED_EXT w.

Definition beginOcclusionQuery (this : t) (conservative : bool) (w : World) : t * World :=
  begin this
    (if conservative then GL.ANY_SAMPLES_PASSED_CONSERVATIVE else GL.ANY_SAMPLES_PASSED) w.

Definition beginTransformFeedbackQuery (this : t) (w : World) : t * World :=
  begin this GL.TRANSFORM_FEEDBACK_PRIMITIVES_WRITTEN w.

(** getTimestamp() *)
Definition getTimestamp (this : t) (w : World) : t * World :=
  let w := beginQuery (ref this) class (onComplete this) (onError this) w in
  let '(ok, g) := GL.do_queryCounter (handle this) GL.TIMESTAMP_EXT (gl w) in
  let w := set_gl g w in
  let w := if ok then w else rejectQuery (ref this) ERR_TIMER_QUERY_NOT_SUPPORTED w in
  (this, w).

(** end().  [if (this.target)]: null is falsy, and so is the number 0. *)
Definition end_ (this : t) (w : World) : t * World :=
  if queryPending this then (this, w)
  else
    match target this with
    | None => (this, w)
    | Some target =>
        if target =? 0 then (this, w)
        else
          let w := set_gl (GL.do_endQuery target (gl w)) w in
          let this := set_target None this in
          let this := set_queryPending true this in
          (this, w)
    end.

(** cancel() *)
Definition cancel (this : t) (w : World) : t * World :=
  let '(this, w) := end_ this w in
  let w := cancelQuery (ref this) w in
  (this, w).

(** isResultAvailable() *)
Definition isResultAvailable (this : t) (w : World) : bool * t * World :=
  if negb (queryPending this) then (false, this, w)
  else
    let '(resultAvailable, g) := GL.do_getQueryResultAvailable (handle this) (gl w) in
    let w := set_gl g w in
    let this := if resultAvailable then set_queryPending false this else this in
    (resultAvailable, this, w).

(** isTimerDisjoint() *)
Definition isTimerDisjoint (this : t) (w : World) : bool * World :=
  let '(d, g) := GL.do_getDisjoint (gl w) in (d, set_gl g w).

(** getResult() *)
Definition getResult (this : t) (w : World) : float * World :=
  let '(r, g) := GL.do_getQueryResult (handle this) (gl w) in (r, set_gl g w).

(** getTimerMilliseconds() *)
Definition getTimerMilliseconds (this : t) (w : World) : float * World :=
  let '(r, w) := getResult this w in ((r / 1e6)%float, w).

(** static poll(gl) *)
Definition poll (w : World) : World := QueryManager.poll w.

(** The module-level registration at the end of query.js:
    [queryManager.setInvalidator({queryType: Query, errorMessage:
    ERR_GPU_DISJOINT, checkInvalid: gl => gl.getParameter(GL_GPU_DISJOINT_EXT)})]. *)
Definition register (m : State) : State :=
  setInvalidator class ERR_GPU_DISJOINT GL.do_getDisjoint m.

End Query.

(** ** AnimationLoop.setNeedsRedraw (core/animation-loop.js) *)

Module AnimationLoop.

(** The JavaScript values that can reach [setNeedsRedraw] or sit in
    [needsRedraw]. *)
Inductive Value : Type :=
  | undefined
  | null
  | boolean (b : bool)
  | number (n : Z)
  | str (s : string).

Definition typeof (v : Value) : string :=
  match v with
  | undefined => "undefined"
  | null => "object"
  | boolean _ => "boolean"
  | number _ => "number"
  | str _ => "string"
  end.

(** ToBoolean: undefined, null, false, 0 and the empty string are falsy. *)
Definition truthy (v : Value) : bool :=
  match v with
  | undefined | null => false
  | boolean b => b
  | number n => negb (n =? 0)
  | str s => negb (String.eqb s "")
  end.

(** [a || b] *)
Definition logical_or (a b : Value) : Value := if truthy a then a else b.

(** The loop object, cut down to the redraw flag and the two flags of the
    loop's own state; [setNeedsRedraw] touches no other field. *)
Record t : Type := mkLoop {
  needsRedraw : Value;
  _initialized : bool;
  _running : bool
}.

(** What the constructor leaves behind: [needsRedraw = null]. *)
Definition new : t := mkLoop null false false.

(** setNeedsRedraw(reason) *)
Definition setNeedsRedraw (this : t) (reason : Value) : result t :=
  match assert (String.eqb (typeof reason) "string") with
  | Thrown e => Thrown e
  | Returned _ =>
      Returned (mkLoop (logical_or (needsRedraw this) reason) (_initialized this) (_running this))
  end.

(** _clearNeedsRedraw() *)
Definition _clearNeedsRedraw (this : t) : t :=
  mkLoop null (_initialized this) (_running this).

End AnimationLoop.

(** ** Group.add (scenegraph/group.js) *)

Module Group.

(** Nodes and arrays are objects: a reference stands for each. *)
Definition NodeRef : Type := positive.
Definition ArrayRef : Type := positive.

(** An argument of [add], or an element of an array: a node, or an array
    ([Array.isArray]). *)
Inductive Value : Type :=
  | node (n : NodeRef)
  | array (a : ArrayRef).

(** The arrays of the program, by reference.  [this.children] is one of
    them, and nothing keeps a caller from passing it to [add]. *)
Abbreviation Heap := (gmap ArrayRef (list Value)).

Record t : Type := mkGroup {
  ref : NodeRef;
  children : ArrayRef
}.

(** this.children.push(child) *)
Definition push (a : ArrayRef) (child : Value) (h : Heap) : Heap :=
  alter (λ elements, elements ++ [child]) a h.

(** The [for (const child of children)] loop of [add]; [recur] is the call
    [this.add(...child)], whose spread reads the array when the call is made. *)
Fixpoint add_loop (recur : list Value -> Heap -> option Heap) (this : t)
    (args : list Value) (h : Heap) : option Heap :=
  match args with
  | [] => Some h
  | array a :: rest =>
      match h !! a with
      | Some elements =>
          match recur elements h with
          | Some h' => add_loop recur this rest h'
          | None => None
          end
      | None => None
      end
  | child :: rest => add_loop recur this rest (push (children this) child h)
  end.

(** add(...children) with a call stack of depth [fuel]: [None] when the stack
    is exhausted (or an array reference dangles, which JavaScript excludes). *)
Fixpoint add_heap (fuel : nat) (this : t) (args : list Value) (h : Heap) : option Heap :=
  match fuel with
  | O => None
  | S fuel' => add_loop (add_heap fuel' this) this args h
  end.

(** add returns [this]. *)
Definition add (fuel : nat) (this : t) (args : list Value) (h : Heap) : option (t * Heap) :=
  match add_heap fuel this args h with
  | Some h' => Some (this, h')
  | None => None
  end.

(** What the caller passes, read when [add] is called: the arrays met while
    unpacking [args] depth first, left to right, and the non-array leaves in
    that order.  [recur] unpacks the elements of a nested array. *)
Fixpoint unpack_loop (recur : list Value -> option (list ArrayRef * list Value))
    (h : Heap) (args : list Value) : option (list ArrayRef * list Value) :=
  match args with
  | [] => Some ([], [])
  | array a :: rest =>
      match h !! a with
      | Some elements =>
          match recur elements, unpack_loop recur h rest with
          | Some (arrays1, leaves1), Some (arrays2, leaves2) =>
              Some (a :: arrays1 ++ arrays2, leaves1 ++ leaves2)
          | _, _ => None
          end
      | None => None
      end
  | child :: rest =>
      match unpack_loop recur h rest with
      | Some (arrays2, leaves2) => Some (arrays2, child :: leaves2)
      | None => None
      end
  end.

(** Nesting deeper than [fuel] (an array that contains itself, say) gives
    [None]. *)
Fixpoint unpack (fuel : nat) (h : Heap) (args : list Value)
    : option (list ArrayRef * list Value) :=
  match fuel with
  | O => None
  | S fuel' => unpack_loop (unpack fuel' h) h args
  end.

#[global] Instance Value_eq_dec : EqDecision Value.
Proof. solve_decision. Defined.

(** [child instanceof Node] *)
Definition instanceofNode (v : Value) : bool :=
  match v with
  | node _ => true
  | array _ => false
  end.

(** Array.prototype.every with a callback that may throw: it stops at the
    first element for which the callback answers something falsy. *)
Fixpoint every (f : Value -> result bool) (elements : list Value) : result bool :=
  match elements with
  | [] => Returned true
  | x :: rest =>
      match f x with
      | Thrown e => Thrown e
      | Returned false => Returned false
      | Returned true => every f rest
      end
  end.

(** The callback [child => assert(child instanceof Node)]: the value of a
    call of [assert] that returns is undefined, which is falsy. *)
Definition assertIsNode (child : Value) : result bool :=
  match assert (instanceofNode child) with
  | Thrown e => Thrown e
  | Returned _ => Returned false
  end.

(** What [new Group(...)] is given: an array, or an options object whose
    [children] may be left out. *)
Inductive Options : Type :=
  | optsArray (a : ArrayRef)
  | optsObject (children : option ArrayRef).

(** constructor(opts = {}).  [r] is the object being constructed;
    [super(opts)] sets up the Node part of it, which [t] does not carry.
    [children = []] makes a new array when the options have none. *)
Definition new (r : NodeRef) (opts : Options) (h : Heap) : result (t * Heap) :=
  let given :=
    match opts with
    | optsArray a => Some a
    | optsObject children => children
    end in
  let '(children, h) :=
    match given with
    | Some a => (a, h)
    | None => let a := fresh (dom h) in (a, <[a := []]> h)
    end in
  match every assertIsNode (default [] (h !! children)) with
  | Thrown e => Thrown e
  | Returned _ => Returned (mkGroup r children, h)
  end.

(** children.indexOf(child): the first index holding the very same object,
    or -1. *)
Fixpoint indexOf_from (from : Z) (elements : list Value) (child : Value) : Z :=
  match elements with
  | [] => -1
  | x :: rest => if decide (x = child) then from else indexOf_from (from + 1) rest child
  end.

Definition indexOf (elements : list Value) (child : Value) : Z :=
  indexOf_from 0 elements child.

(** children.splice(start, deleteCount), for a start inside the array. *)
Definition splice (start : Z) (deleteCount : nat) (elements : list Value) : list Value :=
  take (Z.to_nat start) elements ++ drop (Z.to_nat start + deleteCount) elements.

(** remove(child): the array is changed in place. *)
Definition remove (this : t) (child : Value) (h : Heap) : t * Heap :=
  (this,
   alter (λ elements,
            let indexOf := indexOf elements child in
            if -1 <? indexOf then splice indexOf 1 elements else elements)
     (children this) h).

(** removeAll(): [this.children = []] binds a new, empty array. *)
Definition removeAll (this : t) (h : Heap) : t * Heap :=
  let a := fresh (dom h) in
  (mkGroup (ref this) a, <[a := []]> h).

Section Traverse.

(** Matrix4 of math.gl, as far as [traverse] uses it: the identity that
    [new Matrix4()] makes, and [new Matrix4(a).multiplyRight(b)]. *)
Context {Matrix : Type} (identity : Matrix) (multiplyRight : Matrix -> Matrix -> Matrix).

(** [child instanceof Group]: the Group objects of the scene by reference,
    each with its fields and its [matrix].  Anything else is not a Group. *)
Definition asGroup (groups : gmap NodeRef (t * Matrix)) (child : Value) : option (t * Matrix) :=
  match child with
  | node n => groups !! n
  | array _ => None
  end.

(** The [for (const child of this.children)] loop of [traverse]; [recur] is the
    call [child.traverse(visitor, {worldMatrix: modelMatrix})].  The calls of
    the visitor are collected in order: the child and the matrix passed. *)
Fixpoint traverse_loop (recur : t * Matrix -> Matrix -> option (list (Value * Matrix)))
    (groups : gmap NodeRef (t * Matrix)) (modelMatrix : Matrix) (elements : list Value)
    : option (list (Value * Matrix)) :=
  match elements with
  | [] => Some []
  | child :: rest =>
      match asGroup groups child with
      | Some group =>
          match recur group modelMatrix with
          | Some visits =>
              match traverse_loop recur groups modelMatrix rest with
              | Some visits' => Some (visits ++ visits')
              | None => None
              end
          | None => None
          end
      | None =>
          match traverse_loop recur groups modelMatrix rest with
          | Some visits' => Some ((child, modelMatrix) :: visits')
          | None => None
          end
      end
  end.

(** traverse(visitor, {worldMatrix = new Matrix4()} = {}) with a call stack of
    depth [fuel].  [this] comes with its [matrix]. *)
Fixpoint traverse (fuel : nat) (groups : gmap NodeRef (t * Matrix)) (h : Heap)
    (this : t * Matrix) (worldMatrix : option Matrix) : option (list (Value * Matrix)) :=
  match fuel with
  | O => None
  | S fuel' =>
      let modelMatrix := multiplyRight (default identity worldMatrix) this.2 in
      match h !! children this.1 with
      | Some elements =>
          traverse_loop (λ group m, traverse fuel' groups h group (Some m))
            groups modelMatrix elements
      | None => None
      end
  end.

(** The children a visitor was called with, in order. *)
Definition visited (visits : list (Value * Matrix)) : list Value :=
  map (λ visit : Value * Matrix, visit.1) visits.

End Traverse.

End Group.

(** ** AnimationLoop: the frame timers (core/animation-loop.js) *)

Module Timers.
Import QueryManager.

(** The calls made on the stat objects of probe.gl ([this.frameRate],
    [this.cpuTime], [this.stats.get('GPU Time')]), by the name of the stat. *)
Inductive StatCall : Type :=
  | timeStart (stat : string)
  | timeEnd (stat : string)
  | addTime (stat : string) (milliseconds : float).

(** The GPU times handed to [addTime]. *)
Definition gpuTimes (calls : list StatCall) : list float :=
  omap (λ c, match c with
             | addTime stat ms => if String.eqb stat "GPU Time" then Some ms else None
             | _ => None
             end) calls.

(** _beginTimers().  [query] is [this._gpuTimeQuery], null when timer queries
    are not supported; [stats] are the stat calls so far. *)
Definition _beginTimers (query : option Query.t) (w : World) (stats : list StatCall)
    : option Query.t * World * list StatCall :=
  let stats := stats ++ [timeEnd "Frame Rate"; timeStart "Frame Rate"] in
  let '(query, w, stats) :=
    match query with
    | None => (query, w, stats)
    | Some q =>
        let '(available, q, w) := Query.isResultAvailable q w in
        if available then
          let '(disjoint, w) := Query.isTimerDisjoint q w in
          if negb disjoint then
            let '(ms, w) := Query.getTimerMilliseconds q w in
            (Some q, w, stats ++ [addTime "GPU Time" ms])
          else (Some q, w, stats)
        else (Some q, w, stats)
    end in
  let '(query, w) :=
    match query with
    | None => (query, w)
    | Some q => let '(q, w) := Query.beginTimeElapsedQuery q w in (Some q, w)
    end in
  (query, w, stats ++ [timeStart "CPU Time"]).

(** _endTimers() *)
Definition _endTimers (query : option Query.t) (w : World) (stats : list StatCall)
    : option Query.t * World * list StatCall :=
  let stats := stats ++ [timeEnd "CPU Time"] in
  match query with
  | None => (query, w, stats)
  | Some q => let '(q, w) := Query.end_ q w in (Some q, w, stats)
  end.

End Timers.

(** ** AnimationLoop: stopping, and the promises it hands out *)

Module Frames.

(** The device a frame is cancelled on: [window].  It may lack the native
    function. *)
Record Device : Type := mkDevice {
  deviceName : string;
  hasCancelAnimationFrame : bool
}.

(** What reaches the platform and the application: the native cancel
    function of a device, clearTimeout, and the application's [onFinalize]. *)
Inductive Effect : Type :=
  | deviceCancelAnimationFrame (device : string) (timerId : option Z)
  | clearTimeout (timerId : option Z)
  | onFinalize.

(** The platform: the global [window] (undefined outside a browser), what has
    been done so far, and the number of promises made so far (a promise is an
    object; its number stands for it). *)
Record Platform : Type := mkPlatform {
  window : option Device;
  effects : list Effect;
  promises : nat
}.

Definition emit (e : Effect) (p : Platform) : Platform :=
  mkPlatform (window p) (effects p ++ [e]) (promises p).


(** new Promise(resolve => { ... = resolve }): a new promise object. *)
Definition newPromise (p : Platform) : nat * Platform :=
  (promises p, mkPlatform (window p) (effects p) (S (promises p))).

(** The AnimationLoop object with the fields of its frame scheduling.  A
    resolver is the [resolve] function of the promise it names. *)
Record t : Type := mkFrames {
  loop : AnimationLoop.t;
  _animationFrameId : option Z;
  _nextFramePromise : option nat;
  _resolveNextFrame : option nat;
  _canvasDataURLPromise : option nat;
  _resolveCanvasDataURL : option nat
}.



(** toDataURL() *)
Definition toDataURL (this : t) (p : Platform) : result (nat * t * Platform) :=
  match _canvasDataURLPromise this with
  | Some promise => Returned (promise, this, p)
  | None =>
      match AnimationLoop.setNeedsRedraw (loop this) (AnimationLoop.str "getCanvasDataUrl") with
      | Thrown e => Thrown e
      | Returned loop' =>
          let '(promise, p) := newPromise p in
          Returned
            (promise,
             mkFrames loop' (_animationFrameId this) (_nextFramePromise this)
               (_resolveNextFrame this) (Some promise) (Some promise),
             p)
      end
  end.

End Frames.

(** ** AnimationLoop: the view properties *)

Module ViewProps.

(** The three fields that [setProps] maintains. *)
Record t : Type := mkViewProps {
  autoResizeViewport : AnimationLoop.Value;
  autoResizeDrawingBuffer : AnimationLoop.Value;
  useDevicePixels : AnimationLoop.Value
}.

(** setProps(props): [props] is an object, a key is either in it or not. *)
Definition setProps (this : t) (props : gmap string AnimationLoop.Value) : t :=
  let this :=
    match props !! "autoResizeViewport" with
    | Some v => mkViewProps v (autoResizeDrawingBuffer this) (useDevicePixels this)
    | None => this
    end in
  let this :=
    match props !! "autoResizeDrawingBuffer" with
    | Some v => mkViewProps (autoResizeViewport this) v (useDevicePixels this)
    | None => this
    end in
  match props !! "useDevicePixels" with
  | Some v => mkViewProps (autoResizeViewport this) (autoResizeDrawingBuffer this) v
  | None => this
  end.

End ViewProps.

(** ** AnimationLoop: the data handed to the application's callbacks *)

Module CallbackData.

(** What [_getSizeAndAspect] reads: the drawing buffer of the context, and
    the client size of its canvas - undefined for an OffscreenCanvas. *)
Record Canvas : Type := mkCanvas {
  drawingBufferWidth : float;
  drawingBufferHeight : float;
  clientWidth : option float;
  clientHeight : option float
}.

(** [x >= 0] for a number or undefined: undefined compares as NaN. *)
Definition nonNegative (x : option float) : bool :=
  match x with
  | Some v => (0 <=? v)%float
  | None => false
  end.

(** ToNumber of a number or undefined. *)
Definition toNumber (x : option float) : float := default nan x.

(** _getSizeAndAspect(): width, height and aspect. *)
Definition _getSizeAndAspect (canvas : Canvas) : float * float * float :=
  let width := drawingBufferWidth canvas in
  let height := drawingBufferHeight canvas in
  let aspect :=
    if nonNegative (clientWidth canvas) && nonNegative (clientHeight canvas) then
      if (0 <? height)%float
      then (toNumber (clientWidth canvas) / toNumber (clientHeight canvas))%float
      else 1%float
    else if (0 <? width)%float && (0 <? height)%float then (width / height)%float
    else 1%float in
  (width, height, aspect).

(** The entries of [this.animationProps] that the loop itself keeps up to
    date.  [width], [height] and [aspect] are undefined until the first
    update.  (The references the object also carries - gl, canvas,
    framebuffer, the loop itself - are not among them.) *)
Record AnimationProps : Type := mkAnimationProps {
  width : option float;
  height : option float;
  aspect : option float;
  needsRedraw : AnimationLoop.Value;
  startTime : float;
  time : float;
  tick : float;
  tock : float;
  _offScreen : AnimationLoop.Value;
  _mousePosition : option (float * float)
}.

(** _initializeCallbackData(), as far as these entries go; [now] is what
    Date.now() answers. *)
Definition _initializeCallbackData (now : float) : AnimationProps :=
  mkAnimationProps None None None AnimationLoop.null now 0 0 0 AnimationLoop.undefined None.

(** [x !== y] for a number and a number or undefined. *)
Definition strictlyDiffers (x : float) (y : option float) : bool :=
  match y with
  | Some v => negb (x =? v)%float
  | None => true
  end.

Section Update.

(** Math.floor *)
Variable floor : float -> float.

(** _updateCallbackData(): the loop and its animationProps afterwards.  [now]
    is what Date.now() answers, [offScreen] is [this.offScreen]. *)
Definition _updateCallbackData (this : AnimationLoop.t) (props : AnimationProps)
    (canvas : Canvas) (offScreen : AnimationLoop.Value) (now : float)
    : result (AnimationLoop.t * AnimationProps) :=
  let '(width', height', aspect') := _getSizeAndAspect canvas in
  let resized :=
    if strictlyDiffers width' (width props) || strictlyDiffers height' (height props)
    then AnimationLoop.setNeedsRedraw this (AnimationLoop.str "drawing buffer resized")
    else Returned this in
  match resized with
  | Thrown e => Thrown e
  | Returned this =>
      let reshaped :=
        if strictlyDiffers aspect' (aspect props)
        then AnimationLoop.setNeedsRedraw this
               (AnimationLoop.str "drawing buffer aspect changed")
        else Returned this in
      match reshaped with
      | Thrown e => Thrown e
      | Returned this =>
          let time' := (now - startTime props)%float in
          Returned
            (this,
             mkAnimationProps (Some width') (Some height') (Some aspect')
               (AnimationLoop.needsRedraw this)
               (startTime props) time' (floor ((time' / 1000) * 60)%float)
               (tock props + 1)%float offScreen (_mousePosition props))
      end
  end.

End Update.

(** _onMousemove(e) and _onMouseleave(e) *)
Definition _onMousemove (offsetX offsetY : float) (props : AnimationProps) : AnimationProps :=
  mkAnimationProps (width props) (height props) (aspect props) (needsRedraw props)
    (startTime props) (time props) (tick props) (tock props) (_offScreen props)
    (Some (offsetX, offsetY)).

Definition _onMouseleave (props : AnimationProps) : AnimationProps :=
  mkAnimationProps (width props) (height props) (aspect props) (needsRedraw props)
    (startTime props) (time props) (tick props) (tock props) (_offScreen props) None.

End CallbackData.

(** * Sample data and auxiliary definitions *)

(** ** Sample data *)

(** A WebGL2 context with the timer extension; it has nothing to report yet. *)
Definition sampleContext : GL.Context :=
  GL.mkContext true true (λ _ _, 36) false (λ _ _, false) (λ _ _, false)
    (λ _, true) (λ _, 2500000%float) [].

(** The manager as it is once query.js has been loaded. *)
Definition loadedManager : QueryManager.State := Query.register QueryManager.empty.

Definition sampleWorld : QueryManager.World :=
  QueryManager.mkWorld sampleContext loadedManager [].

(** A WebGL2 context without the timer extension. *)
Definition webgl2OnlyContext : GL.Context :=
  GL.mkContext true false (λ _ _, 0) false (λ _ _, false) (λ _ _, true)
    (λ _, false) (λ _, 0%float) [].

(** A fresh query, one with an open interval, and one whose result is unread. *)
Definition freshQuery : Query.t :=
  Query.new 1%positive (Some 7) (Some (userCallback 1)) (Some (userCallback 2)).
Definition openQuery : Query.t := Query.set_target (Some GL.TIME_ELAPSED_EXT) freshQuery.
Definition endedQuery : Query.t := Query.set_queryPending true freshQuery.

(** Two queries in flight on a context whose disjoint flag is raised. *)
Definition disjointContext : GL.Context :=
  GL.mkContext true true (λ _ _, 36) true (λ _ _, false) (λ _ _, false)
    (λ _, false) (λ _, 0%float) [].
Definition queryA : Query.t := freshQuery.
Definition queryB : Query.t :=
  Query.new 2%positive (Some 8) (Some (userCallback 3)) (Some (userCallback 4)).
Definition twoInFlight : QueryManager.World :=
  (Query.begin queryB GL.TIME_ELAPSED_EXT
     (Query.begin queryA GL.TIME_ELAPSED_EXT
        (QueryManager.mkWorld disjointContext loadedManager [])).2).2.

(** A loop that was asked to redraw for the empty reason, and one that holds
    a proper reason. *)
Definition emptyReasonLoop : AnimationLoop.t :=
  AnimationLoop.mkLoop (AnimationLoop.str "") false false.
Definition resizedLoop : AnimationLoop.t :=
  AnimationLoop.mkLoop (AnimationLoop.str "drawing buffer resized") false false.

(** A group whose children array holds one node; a caller's array of two
    nodes, one of them inside a nested array. *)
Definition sampleGroup : Group.t := Group.mkGroup 5%positive 10%positive.
Definition sampleHeap : gmap Group.ArrayRef (list Group.Value) :=
  {[ 10%positive := [Group.node 1%positive];
     20%positive := [Group.node 2%positive; Group.array 21%positive];
     21%positive := [Group.node 3%positive] ]}.

(** A scene with 1 x 1 matrices: a root group scaling by 2 that holds node 1,
    a subgroup scaling by 3 that holds node 3, and node 2. *)
Definition sceneHeap : gmap Group.ArrayRef (list Group.Value) :=
  {[ 30%positive := [Group.node 1%positive; Group.node 50%positive; Group.node 2%positive];
     31%positive := [Group.node 3%positive] ]}.
Definition sceneGroups : gmap Group.NodeRef (Group.t * Z) :=
  {[ 40%positive := (Group.mkGroup 40%positive 30%positive, 2);
     50%positive := (Group.mkGroup 50%positive 31%positive, 3) ]}.
Definition sceneRoot : Group.t * Z := (Group.mkGroup 40%positive 30%positive, 2).

(** A browser, and a loop that is running with a frame requested. *)
Definition browser : Frames.Platform :=
  Frames.mkPlatform (Some (Frames.mkDevice "window" true)) [] 0.
Definition runningLoop : Frames.t :=
  Frames.mkFrames (AnimationLoop.mkLoop AnimationLoop.null true true) (Some 17) None None
    None None.

(** A canvas that is not laid out (client size 0 x 0) with the default
    drawing buffer, and a loop with no redraw reason. *)
Definition hiddenCanvas : CallbackData.Canvas :=
  CallbackData.mkCanvas 300 150 (Some 0%float) (Some 0%float).
Definition visibleCanvas : CallbackData.Canvas :=
  CallbackData.mkCanvas 800 600 (Some 400%float) (Some 300%float).
Definition idleLoop : AnimationLoop.t := AnimationLoop.mkLoop AnimationLoop.null true true.

(** ** Auxiliary definitions *)

(** The events of rejecting each entry of a list in turn. *)
Definition rejections (message : string) (entries : list (QueryRef * QueryManager.Pending)) : list Event :=
  entries ≫= λ qe, [callRejectQuery qe.1 message; invokeOnError qe.1 (QueryManager.onError qe.2) message].

(** The capability keys that [isSupported] knows. *)
Definition recognized (key : string) : bool :=
  String.eqb key "queries" || String.eqb key "timers" || String.eqb key "timestamps".

(** What a known key asks of the context. *)
Definition capability (g : GL.Context) (key : string) : bool :=
  if String.eqb key "queries" then GL.webgl2 g
  else if String.eqb key "timers" then GL.timerQuery g
  else GL.timerQuery g && (0 <? GL.queryValue g GL.TIMESTAMP_EXT GL.QUERY_COUNTER_BITS_EXT).

(** A Query never has an unread result and an interval on record at once. *)
Definition consistent (q : Query.t) : Prop :=
  Query.queryPending q = true → Query.target q = None.

(** The events that are calls on the manager, as opposed to the callbacks it
    invokes. *)
Definition managerCalls (evs : list Event) : list Event :=
  filter (λ e, invocation e = false) evs.

(** * Properties *)

(** ** Query: begin, end, cancel, isResultAvailable *)

Section QueryLifeCycle.
Import QueryManager.

Implicit Types (q : Query.t) (w : World) (target : Z).

(** Every query target that query.js names is a non-zero number. *)
Lemma named_targets_nonzero target :
  target ∈ [GL.TIME_ELAPSED_EXT; GL.TIMESTAMP_EXT; GL.ANY_SAMPLES_PASSED;
            GL.ANY_SAMPLES_PASSED_CONSERVATIVE; GL.TRANSFORM_FEEDBACK_PRIMITIVES_WRITTEN] →
  target ≠ 0.
Proof.
  intros Hin. repeat (apply elem_of_cons in Hin as [->|Hin]; [done|]).
  by apply elem_of_nil in Hin.
Qed.

(** What [end] does to a query with an open interval. *)
Lemma end_open q w target :
  Query.queryPending q = false → Query.target q = Some target → target ≠ 0 →
  Query.end_ q w =
    (Query.set_queryPending true (Query.set_target None q),
     set_gl (GL.do_endQuery target (gl w)) w).
Proof.
  intros Hp Ht Hne. unfold Query.end_. rewrite Hp, Ht.
  by destruct (Z.eqb_spec target 0).
Qed.

(** C3. While [queryPending] is true (an ended interval whose result is
    unread), [begin(target)] hands back the same Query with every field as it
    was, and the context, the manager and the event log are untouched: no
    manager call, no hardware call. *)
Theorem begin_while_pending_is_noop q target w :
  Query.queryPending q = true → Query.begin q target w = (q, w).
Proof. intros Hp. unfold Query.begin. by rewrite Hp. Qed.

Lemma begin_while_pending_is_noop_witness :
  Query.begin endedQuery GL.ANY_SAMPLES_PASSED sampleWorld = (endedQuery, sampleWorld).
Proof. apply begin_while_pending_is_noop. reflexivity. Defined.

(** C4. [isResultAvailable()] answers false at once, without a call on the
    context, when nothing is pending.  When [queryPending] is true it asks the
    context for QUERY_RESULT_AVAILABLE and answers what the context says; on
    true it clears [queryPending], so that the next call answers false
    whatever the context says by then; on false the query is unchanged. *)
Theorem isResultAvailable_polls_once q w :
  (Query.queryPending q = false → Query.isResultAvailable q w = (false, q, w)) ∧
  (Query.queryPending q = true →
     let r := Query.isResultAvailable q w in
     r.1.1 = GL.resultAvailable (gl w) (Query.handle q) ∧
     GL.calls (gl r.2) =
       GL.calls (gl w) ++ [GL.getQueryParameter (Query.handle q) GL.QUERY_RESULT_AVAILABLE] ∧
     manager r.2 = manager w ∧ events r.2 = events w ∧
     (r.1.1 = true →
        r.1.2 = Query.set_queryPending false q ∧
        ∀ w2, Query.isResultAvailable r.1.2 w2 = (false, r.1.2, w2)) ∧
     (r.1.1 = false → r.1.2 = q)).
Proof.
  split; intros Hp; unfold Query.isResultAvailable; rewrite Hp; simpl; [done|].
  destruct (GL.resultAvailable (gl w) (Query.handle q)); simpl.
  - repeat split; done.
  - repeat split; done.
Qed.

(** C5. On a query with [queryPending] false, [end()] changes nothing when no
    interval is open ([target] is null); when an interval is open ([target]
    holds a query target, a non-zero GLenum) it issues gl.endQuery(target),
    sets [target] to null and [queryPending] to true.  Either way it returns
    the same Query and makes no call on the manager: the pending set is as it
    was.  (A [target] of 0 is falsy and counts as no interval.) *)
Theorem end_closes_open_interval q w :
  Query.queryPending q = false →
  (Query.target q = None → Query.end_ q w = (q, w)) ∧
  (∀ target, Query.target q = Some target → target ≠ 0 →
     let r := Query.end_ q w in
     Query.target r.1 = None ∧ Query.queryPending r.1 = true ∧
     Query.ref r.1 = Query.ref q ∧ Query.handle r.1 = Query.handle q ∧
     Query.onComplete r.1 = Query.onComplete q ∧ Query.onError r.1 = Query.onError q ∧
     GL.calls (gl r.2) = GL.calls (gl w) ++ [GL.endQuery target] ∧
     manager r.2 = manager w ∧ events r.2 = events w) ∧
  (Query.target q = Some 0 → Query.end_ q w = (q, w)).
Proof.
  intros Hp. split_and!.
  - intros Ht. unfold Query.end_. by rewrite Hp, Ht.
  - intros target Ht Hne. by rewrite (end_open _ _ _ Hp Ht Hne).
  - intros Ht. unfold Query.end_. by rewrite Hp, Ht.
Qed.

Lemma end_closes_open_interval_witness :
  (Query.target openQuery = None → Query.end_ openQuery sampleWorld = (openQuery, sampleWorld)) ∧
  (∀ target, Query.target openQuery = Some target → target ≠ 0 →
     let r := Query.end_ openQuery sampleWorld in
     Query.target r.1 = None ∧ Query.queryPending r.1 = true ∧
     Query.ref r.1 = Query.ref openQuery ∧ Query.handle r.1 = Query.handle openQuery ∧
     Query.onComplete r.1 = Query.onComplete openQuery ∧
     Query.onError r.1 = Query.onError openQuery ∧
     GL.calls (gl r.2) = GL.calls (gl sampleWorld) ++ [GL.endQuery target] ∧
     manager r.2 = manager sampleWorld ∧ events r.2 = events sampleWorld) ∧
  (Query.target openQuery = Some 0 →
     Query.end_ openQuery sampleWorld = (openQuery, sampleWorld)).
Proof. apply (end_closes_open_interval openQuery sampleWorld). reflexivity. Defined.

(** Query B begins and ends; on the same pass the result is not there yet, on
    a later pass the context reports it, and the call after that answers
    false again. *)
Example begin_end_then_poll :
  let notYet := GL.mkContext true true (λ _ _, 36) false (λ _ _, false) (λ _ _, false)
                  (λ _, false) (λ _, 0%float) [] in
  let r1 := Query.begin queryB GL.TIME_ELAPSED_EXT (mkWorld notYet loadedManager []) in
  let r2 := Query.end_ r1.1 r1.2 in
  let r3 := Query.isResultAvailable r2.1 r2.2 in
  let r4 := Query.isResultAvailable r3.1.2 sampleWorld in
  let r5 := Query.isResultAvailable r4.1.2 r4.2 in
  Query.queryPending r2.1 = true ∧
  r3.1.1 = false ∧ Query.queryPending r3.1.2 = true ∧
  r4.1.1 = true ∧ Query.queryPending r4.1.2 = false ∧
  r5 = (false, r4.1.2, r4.2).
Proof. by vm_compute. Qed.

End QueryLifeCycle.

Section QueryRestartAndCancel.
Import QueryManager.

Implicit Types (q : Query.t) (w : World) (target : Z).

Lemma newEvents_app w w' evs : events w' = events w ++ evs → newEvents w w' = evs.
Proof. intros Hev. unfold newEvents. by rewrite Hev, drop_app_length. Qed.

(** C6. On a query with an open interval, [cancel()] first does what [end()]
    does (gl.endQuery is issued, [target] becomes null), then has the manager
    drop the query's pending entry; the only new event is the call of
    cancelQuery, so neither onComplete nor onError is invoked; the Query
    returned is the same object. *)
Theorem cancel_ends_then_drops_entry q target w :
  Query.queryPending q = false → Query.target q = Some target → target ≠ 0 →
  let r := Query.cancel q w in
  r.1 = (Query.end_ q w).1 ∧
  Query.target r.1 = None ∧ Query.ref r.1 = Query.ref q ∧
  GL.calls (gl r.2) = GL.calls (gl w) ++ [GL.endQuery target] ∧
  pendingQueries (manager r.2) = delete (Query.ref q) (pendingQueries (manager w)) ∧
  pendingQueries (manager r.2) !! Query.ref q = None ∧
  newEvents w r.2 = [callCancelQuery (Query.ref q)] ∧
  filter invocation (newEvents w r.2) = [].
Proof.
  intros Hp Ht Hne. unfold Query.cancel.
  rewrite (end_open _ _ _ Hp Ht Hne). simpl.
  repeat split; try done.
  - apply lookup_delete_eq.
  - apply newEvents_app. reflexivity.
  - by rewrite (newEvents_app _ _ [callCancelQuery (Query.ref q)]).
Qed.

Lemma cancel_ends_then_drops_entry_witness :
  let r := Query.cancel openQuery (Query.begin freshQuery GL.TIME_ELAPSED_EXT sampleWorld).2 in
  let w := (Query.begin freshQuery GL.TIME_ELAPSED_EXT sampleWorld).2 in
  r.1 = (Query.end_ openQuery w).1 ∧
  Query.target r.1 = None ∧ Query.ref r.1 = Query.ref openQuery ∧
  GL.calls (gl r.2) = GL.calls (gl w) ++ [GL.endQuery GL.TIME_ELAPSED_EXT] ∧
  pendingQueries (manager r.2) = delete (Query.ref openQuery) (pendingQueries (manager w)) ∧
  pendingQueries (manager r.2) !! Query.ref openQuery = None ∧
  newEvents w r.2 = [callCancelQuery (Query.ref openQuery)] ∧
  filter invocation (newEvents w r.2) = [].
Proof.
  apply (cancel_ends_then_drops_entry openQuery GL.TIME_ELAPSED_EXT); [reflexivity..|done].
Defined.

(** What [begin] does when no result is pending. *)
Lemma begin_not_pending q target w :
  Query.queryPending q = false →
  let r := Query.begin q target w in
  r.1 = Query.set_target (Some target) q ∧
  GL.calls (gl r.2) = GL.calls (gl w) ++ [GL.beginQuery target (Query.handle q)] ∧
  (∃ rest, events r.2 =
     events w ++ callBeginQuery (Query.ref q) (Query.onComplete q) (Query.onError q) :: rest).
Proof.
  intros Hp. unfold Query.begin. rewrite Hp. simpl.
  destruct (GL.beginQueryFails (gl w) target (Query.handle q)); simpl.
  - unfold rejectQuery. simpl. rewrite lookup_insert_eq. simpl.
    do 2 (split; [done|]). eexists. rewrite <- !app_assoc. reflexivity.
  - do 2 (split; [done|]). by exists [].
Qed.

(** C2, as the code has it.  [begin] only looks at [queryPending], which is
    false between [begin] and [end].  A second [begin(target2)] before [end]
    therefore runs in full: it calls the manager's beginQuery for the Query
    again, sets [target] to [target2] and issues gl.beginQuery(target2,
    handle) again; [target] stays what the first call requested only when
    [target2] is that same target. *)
Theorem begin_again_before_end_restarts q target1 target2 w :
  Query.queryPending q = false →
  let r1 := Query.begin q target1 w in
  let r2 := Query.begin r1.1 target2 r1.2 in
  Query.target r1.1 = Some target1 ∧
  Query.target r2.1 = Some target2 ∧
  (Query.target r2.1 = Query.target r1.1 ↔ target2 = target1) ∧
  Query.queryPending r2.1 = false ∧ Query.ref r2.1 = Query.ref q ∧
  GL.calls (gl r2.2) = GL.calls (gl r1.2) ++ [GL.beginQuery target2 (Query.handle q)] ∧
  (∃ rest, events r2.2 =
     events r1.2 ++ callBeginQuery (Query.ref q) (Query.onComplete q) (Query.onError q) :: rest).
Proof.
  intros Hp r1 r2.
  destruct (begin_not_pending q target1 w Hp) as (Hq1 & _ & _).
  fold r1 in Hq1.
  assert (Query.queryPending r1.1 = false) as Hp1 by (by rewrite Hq1).
  destruct (begin_not_pending r1.1 target2 r1.2 Hp1) as (Hq2 & Hcalls & Hevents).
  fold r2 in Hq2, Hcalls, Hevents.
  rewrite Hq1 in Hcalls, Hevents. simpl in Hcalls, Hevents.
  rewrite Hq2, Hq1. simpl.
  do 2 (split; [done|]). split; [split; congruence|]. by do 3 (split; [done|]).
Qed.

Lemma begin_again_before_end_restarts_witness :
  let r1 := Query.begin freshQuery GL.TIME_ELAPSED_EXT sampleWorld in
  let r2 := Query.begin r1.1 GL.ANY_SAMPLES_PASSED r1.2 in
  Query.target r1.1 = Some GL.TIME_ELAPSED_EXT ∧
  Query.target r2.1 = Some GL.ANY_SAMPLES_PASSED ∧
  (Query.target r2.1 = Query.target r1.1 ↔ GL.ANY_SAMPLES_PASSED = GL.TIME_ELAPSED_EXT) ∧
  Query.queryPending r2.1 = false ∧ Query.ref r2.1 = Query.ref freshQuery ∧
  GL.calls (gl r2.2) =
    GL.calls (gl r1.2) ++ [GL.beginQuery GL.ANY_SAMPLES_PASSED (Query.handle freshQuery)] ∧
  (∃ rest, events r2.2 =
     events r1.2 ++
     callBeginQuery (Query.ref freshQuery) (Query.onComplete freshQuery)
       (Query.onError freshQuery) :: rest).
Proof.
  apply (begin_again_before_end_restarts freshQuery GL.TIME_ELAPSED_EXT GL.ANY_SAMPLES_PASSED
           sampleWorld).
  reflexivity.
Defined.

(** C2, as stated, fails: query A begins a time-elapsed interval, and [begin]
    is called on A again before [end].  The second call is not a no-op: the
    target changes, the manager's beginQuery is called once more and so is
    gl.beginQuery. *)
Lemma second_begin_before_end_is_not_noop :
  let r1 := Query.begin freshQuery GL.TIME_ELAPSED_EXT sampleWorld in
  let r2 := Query.begin r1.1 GL.ANY_SAMPLES_PASSED r1.2 in
  r2 ≠ r1 ∧
  Query.target r1.1 = Some GL.TIME_ELAPSED_EXT ∧
  Query.target r2.1 = Some GL.ANY_SAMPLES_PASSED ∧
  events r1.2 = [callBeginQuery 1%positive (userCallback 1) (userCallback 2)] ∧
  events r2.2 = [callBeginQuery 1%positive (userCallback 1) (userCallback 2);
                 callBeginQuery 1%positive (userCallback 1) (userCallback 2)] ∧
  GL.calls (gl r1.2) = [GL.beginQuery GL.TIME_ELAPSED_EXT (Some 7)] ∧
  GL.calls (gl r2.2) = [GL.beginQuery GL.TIME_ELAPSED_EXT (Some 7);
                        GL.beginQuery GL.ANY_SAMPLES_PASSED (Some 7)].
Proof.
  split; [|by vm_compute].
  intros Heq. apply (f_equal (λ r, Query.target r.1)) in Heq. by vm_compute in Heq.
Qed.

(** C8. [getTimerMilliseconds()] is [getResult()] divided by 1e6 in double
    precision, for every value the context reports: the IEEE 754 quotient of
    the counter by the double that is exactly one million, with nothing done
    before or after the division; it reads the context exactly as
    [getResult()] does. *)
Theorem getTimerMilliseconds_is_result_over_1e6 q w :
  (Query.getTimerMilliseconds q w).1 = ((Query.getResult q w).1 / 1e6)%float ∧
  Prim2SF (Query.getTimerMilliseconds q w).1 =
    SF64div (Prim2SF (GL.queryResult (gl w) (Query.handle q)))
      (S754_finite false (1000000 * 2 ^ 33) (-33)) ∧
  (Query.getTimerMilliseconds q w).2 = (Query.getResult q w).2 ∧
  GL.calls (gl (Query.getTimerMilliseconds q w).2) =
    GL.calls (gl w) ++ [GL.getQueryParameter (Query.handle q) GL.QUERY_RESULT] ∧
  manager (Query.getTimerMilliseconds q w).2 = manager w ∧
  events (Query.getTimerMilliseconds q w).2 = events w.
Proof.
  split_and!; try done.
  unfold Query.getTimerMilliseconds, Query.getResult. simpl.
  by rewrite div_spec.
Qed.

(** 2 500 000 ns are 2.5 ms. *)
Example getTimerMilliseconds_sample :
  (Query.getTimerMilliseconds endedQuery sampleWorld).1 = 2.5%float.
Proof. reflexivity. Qed.

End QueryRestartAndCancel.

(** ** The manager's poll and the disjoint flag *)

Section Poll.
Import QueryManager.

Implicit Types (w : World) (q : QueryRef) (e : Pending) (message : string).

Lemma rejectQuery_pending q message w e :
  pendingQueries (manager w) !! q = Some e →
  rejectQuery q message w =
    mkWorld (gl w)
      (mkState (delete q (pendingQueries (manager w))) (invalidators (manager w)))
      (events w ++ [callRejectQuery q message; invokeOnError q (onError e) message]).
Proof.
  intros Hq. unfold rejectQuery. simpl. rewrite Hq.
  unfold set_pending, emit. simpl. by rewrite <- app_assoc.
Qed.

(** The spec's idempotence: rejecting a query that is not pending invokes
    nothing and leaves the pending set alone. *)
Lemma rejectQuery_absent q message w :
  pendingQueries (manager w) !! q = None →
  rejectQuery q message w = emit (callRejectQuery q message) w.
Proof. intros Hq. unfold rejectQuery. simpl. by rewrite Hq. Qed.

Lemma rejectQuery_all message (entries : list (QueryRef * Pending)) : ∀ w,
  NoDup entries.*1 →
  (∀ q e, (q, e) ∈ entries → pendingQueries (manager w) !! q = Some e) →
  let w' := foldl (λ w q, rejectQuery q message w) w entries.*1 in
  gl w' = gl w ∧
  invalidators (manager w') = invalidators (manager w) ∧
  (∀ q, pendingQueries (manager w') !! q =
        if decide (q ∈ entries.*1) then None else pendingQueries (manager w) !! q) ∧
  events w' = events w ++ rejections message entries.
Proof.
  induction entries as [|[q0 e0] entries IH]; intros w Hnodup Hin; csimpl.
  - repeat split; try done. by rewrite app_nil_r.
  - rewrite fmap_cons in Hnodup. apply NoDup_cons in Hnodup as [Hq0 Hnodup].
    rewrite (rejectQuery_pending q0 message w e0) by (apply Hin; left).
    match goal with
    | |- context [foldl _ ?w0 _] => destruct (IH w0) as (Hgl & Hinv & Hpend & Hev)
    end; [done| |].
    { intros q e Hqe. simpl. rewrite lookup_delete_ne.
      - apply Hin. by right.
      - intros ->. apply Hq0. apply list_elem_of_fmap. by exists (q, e). }
    cbv zeta. rewrite Hgl, Hinv, Hev. simpl. split_and!; try done.
    + intros q. rewrite Hpend. simpl.
      destruct (decide (q = q0)) as [->|Hne].
      * rewrite lookup_delete_eq. rewrite (decide_True (P := q0 ∈ q0 :: _)) by left.
        by case_decide.
      * rewrite lookup_delete_ne by done.
        destruct (decide (q ∈ entries.*1)).
        -- rewrite decide_True; [done | by right].
        -- rewrite decide_False; [done|]. by intros [?|?]%elem_of_cons.
    + by rewrite <- app_assoc.
Qed.

Lemma onErrorCalls_rejections_cons message q q0 e0 (entries : list (QueryRef * Pending)) :
  onErrorCalls q (rejections message ((q0, e0) :: entries)) =
  (if decide (q0 = q) then [(onError e0, message)] else [])
    ++ onErrorCalls q (rejections message entries).
Proof. unfold onErrorCalls, rejections. csimpl. by case_decide. Qed.

Lemma onErrorCalls_rejections_other message q (entries : list (QueryRef * Pending)) :
  q ∉ entries.*1 → onErrorCalls q (rejections message entries) = [].
Proof.
  induction entries as [|[q0 e0] entries IH]; intros Hq; [done|].
  rewrite fmap_cons in Hq. apply not_elem_of_cons in Hq as [Hne Hq].
  rewrite onErrorCalls_rejections_cons, decide_False by done. by apply IH.
Qed.

Lemma onErrorCalls_rejections message q e (entries : list (QueryRef * Pending)) :
  NoDup entries.*1 → (q, e) ∈ entries →
  onErrorCalls q (rejections message entries) = [(onError e, message)].
Proof.
  induction entries as [|[q0 e0] entries IH]; intros Hnodup Hin.
  - by apply elem_of_nil in Hin.
  - rewrite fmap_cons in Hnodup. apply NoDup_cons in Hnodup as [Hq0 Hnodup].
    rewrite onErrorCalls_rejections_cons.
    apply elem_of_cons in Hin as [[= <- <-]|Hin].
    + rewrite decide_True by done.
      by rewrite (onErrorCalls_rejections_other message q entries Hq0).
    + rewrite decide_False, IH; [done..|].
      intros ->. apply Hq0. apply list_elem_of_fmap. by exists (q, e).
Qed.

Lemma rejections_no_onComplete message (entries : list (QueryRef * Pending)) q f :
  invokeOnComplete q f ∉ rejections message entries.
Proof.
  induction entries as [|[q0 e0] entries IH]; [apply not_elem_of_nil|].
  unfold rejections in *. simpl.
  intros [?|[?|?]%elem_of_cons]%elem_of_cons; done.
Qed.

(** One registered type of a poll whose check says "invalid". *)
Lemma invalidateQueryType_invalid type inv w :
  (checkInvalid inv (gl w)).1 = true →
  let w' := invalidateQueryType type inv w in
  let entries := map_to_list (filter (λ kv, queryType kv.2 = type) (pendingQueries (manager w))) in
  gl w' = (checkInvalid inv (gl w)).2 ∧
  invalidators (manager w') = invalidators (manager w) ∧
  (∀ q, pendingQueries (manager w') !! q =
        if decide (q ∈ entries.*1) then None else pendingQueries (manager w) !! q) ∧
  events w' = events w ++ rejections (errorMessage inv) entries.
Proof.
  intros Hcheck. unfold invalidateQueryType.
  destruct (checkInvalid inv (gl w)) as [invalid g]. simpl in *. subst invalid.
  unfold pendingOfType. simpl.
  apply (rejectQuery_all (errorMessage inv) _ (set_gl g w)).
  - apply NoDup_fst_map_to_list.
  - intros q e Hqe. simpl.
    by apply elem_of_map_to_list, map_lookup_filter_Some in Hqe as [? _].
Qed.

(** One registered type of a poll whose check says "valid": nothing but the
    read of the context. *)
Lemma invalidateQueryType_valid type inv w :
  (checkInvalid inv (gl w)).1 = false →
  invalidateQueryType type inv w = set_gl (checkInvalid inv (gl w)).2 w.
Proof.
  intros Hcheck. unfold invalidateQueryType.
  destruct (checkInvalid inv (gl w)) as [invalid g]. simpl in *. by subst invalid.
Qed.

Lemma poll_loaded w :
  invalidators (manager w) = invalidators loadedManager →
  Query.poll w =
    invalidateQueryType Query.class
      (mkInvalidator Query.ERR_GPU_DISJOINT GL.do_getDisjoint) (emit callPoll w).
Proof.
  intros Hinv. unfold Query.poll, poll. rewrite Hinv.
  unfold loadedManager, Query.register, setInvalidator. simpl.
  rewrite insert_empty, map_to_list_singleton. done.
Qed.

End Poll.

Section PollDisjoint.
Import QueryManager.

Implicit Types (w : World) (q : QueryRef) (e : Pending).

(** C1. With the invalidator that query.js registers for [Query], a poll that
    finds the context's disjoint flag raised invokes, for every Query entry
    that was pending before the poll, its onError exactly once, with
    'Disjoint GPU operation invalidated timer queries', and removes the entry
    from the pending set; it invokes no onComplete and leaves entries of other
    types alone.  The read lowers the flag, and a poll that finds the flag
    lowered - the next one, or any other - invokes no callback at all. *)
Theorem poll_rejects_pending_queries_once w :
  invalidators (manager w) = invalidators loadedManager →
  GL.disjoint (gl w) = true →
  let w' := Query.poll w in
  (∀ q e, pendingQueries (manager w) !! q = Some e → queryType e = Query.class →
     onErrorCalls q (newEvents w w') = [(onError e, Query.ERR_GPU_DISJOINT)] ∧
     pendingQueries (manager w') !! q = None) ∧
  (∀ q e, pendingQueries (manager w) !! q = Some e → queryType e ≠ Query.class →
     onErrorCalls q (newEvents w w') = [] ∧
     pendingQueries (manager w') !! q = Some e) ∧
  (∀ q f, invokeOnComplete q f ∉ newEvents w w') ∧
  GL.disjoint (gl w') = false ∧
  newEvents w' (Query.poll w') = [callPoll] ∧
  (∀ w2, invalidators (manager w2) = invalidators loadedManager →
     GL.disjoint (gl w2) = false →
     newEvents w2 (Query.poll w2) = [callPoll] ∧
     pendingQueries (manager (Query.poll w2)) = pendingQueries (manager w2)).
Proof.
  intros Hinv Hdisjoint w'.
  assert (∀ w2, invalidators (manager w2) = invalidators loadedManager →
     GL.disjoint (gl w2) = false →
     newEvents w2 (Query.poll w2) = [callPoll] ∧
     pendingQueries (manager (Query.poll w2)) = pendingQueries (manager w2)) as Hquiet.
  { intros w2 Hinv2 Hd2. rewrite (poll_loaded w2 Hinv2).
    rewrite invalidateQueryType_valid by done. split; [|done].
    by apply newEvents_app. }
  pose proof (invalidateQueryType_invalid Query.class
                (mkInvalidator Query.ERR_GPU_DISJOINT GL.do_getDisjoint)
                (emit callPoll w) Hdisjoint) as Hpoll.
  rewrite <- (poll_loaded w Hinv) in Hpoll. fold w' in Hpoll.
  destruct Hpoll as (Hgl & Hinv' & Hpend & Hev).
  simpl in Hgl, Hinv', Hpend, Hev.
  set (entries := map_to_list
         (filter (λ kv, queryType kv.2 = Query.class) (pendingQueries (manager w)))) in *.
  assert (newEvents w w' = callPoll :: rejections Query.ERR_GPU_DISJOINT entries) as Hnew.
  { apply newEvents_app. by rewrite Hev, <- app_assoc. }
  assert (GL.disjoint (gl w') = false) as Hlow by (by rewrite Hgl).
  split_and!; try done.
  - intros q e Hq Htype.
    assert ((q, e) ∈ entries) as Hin.
    { by apply elem_of_map_to_list, map_lookup_filter_Some. }
    split.
    + rewrite Hnew. change (onErrorCalls q (callPoll :: ?l)) with (onErrorCalls q l).
      apply onErrorCalls_rejections; [apply NoDup_fst_map_to_list | done].
    + rewrite Hpend, decide_True; [done|]. apply list_elem_of_fmap. by exists (q, e).
  - intros q e Hq Htype.
    assert (q ∉ entries.*1) as Hout.
    { intros [[q' e'] [-> Hin]]%list_elem_of_fmap.
      apply elem_of_map_to_list, map_lookup_filter_Some in Hin as [Hq' Htype'].
      simpl in *. congruence. }
    split.
    + rewrite Hnew. change (onErrorCalls q (callPoll :: ?l)) with (onErrorCalls q l).
      by apply onErrorCalls_rejections_other.
    + by rewrite Hpend, decide_False.
  - intros q f. rewrite Hnew. intros [?|Hin]%elem_of_cons; [done|].
    by apply rejections_no_onComplete in Hin.
  - apply Hquiet; [by rewrite Hinv'|done].
Qed.

(** The scenario of two pending queries A and B: one poll rejects both with
    the same message, the next poll invokes nothing. *)
Lemma poll_rejects_pending_queries_once_witness :
  let w' := Query.poll twoInFlight in
  onErrorCalls 1%positive (newEvents twoInFlight w') = [(userCallback 2, Query.ERR_GPU_DISJOINT)] ∧
  onErrorCalls 2%positive (newEvents twoInFlight w') = [(userCallback 4, Query.ERR_GPU_DISJOINT)] ∧
  pendingQueries (manager w') !! 1%positive = None ∧
  pendingQueries (manager w') !! 2%positive = None ∧
  newEvents w' (Query.poll w') = [callPoll].
Proof.
  destruct (poll_rejects_pending_queries_once twoInFlight eq_refl eq_refl)
    as (Hrejected & _ & _ & _ & Hnext & _).
  destruct (Hrejected 1%positive (mkPending Query.class (userCallback 1) (userCallback 2))
              eq_refl eq_refl) as [HA1 HA2].
  destruct (Hrejected 2%positive (mkPending Query.class (userCallback 3) (userCallback 4))
              eq_refl eq_refl) as [HB1 HB2].
  exact (conj HA1 (conj HB1 (conj HA2 (conj HB2 Hnext)))).
Defined.

End PollDisjoint.

(** ** Query.isSupported *)

Section IsSupported.

Implicit Types (g : GL.Context) (opts : list string).

Lemma isSupported_keys_recognized g : ∀ opts supported g',
  GL.queryValue g' = GL.queryValue g →
  Forall (λ key, recognized key = true) opts →
  (Query.isSupported_keys (GL.webgl2 g) (GL.timerQuery g) opts supported g').1 =
    Returned (supported && forallb (capability g) opts).
Proof.
  induction opts as [|key opts IH]; intros supported g' Hq Hall.
  - simpl. by rewrite andb_true_r.
  - apply Forall_cons in Hall as [Hkey Hall].
    unfold recognized in Hkey. simpl. unfold capability at 1.
    destruct (String.eqb key "queries").
    { rewrite IH by done. by rewrite <- andb_assoc. }
    destruct (String.eqb key "timers").
    { rewrite IH by done. by rewrite <- andb_assoc. }
    destruct (String.eqb key "timestamps"); [|done].
    destruct (GL.timerQuery g); simpl.
    + rewrite IH by done. by rewrite <- andb_assoc, Hq.
    + rewrite IH by done. by rewrite <- andb_assoc.
Qed.

Lemma isSupported_keys_unrecognized webgl2 hasTimerQuery : ∀ opts supported g',
  Exists (λ key, recognized key = false) opts →
  ∃ message, (Query.isSupported_keys webgl2 hasTimerQuery opts supported g').1 = Thrown message.
Proof.
  induction opts as [|key opts IH]; intros supported g' Hex.
  - by apply Exists_nil in Hex.
  - simpl. unfold recognized in Hex.
    destruct (String.eqb key "queries") eqn:E1.
    { apply IH. apply Exists_cons in Hex as [Hkey|Hex]; [by rewrite E1 in Hkey|done]. }
    destruct (String.eqb key "timers") eqn:E2.
    { apply IH. apply Exists_cons in Hex as [Hkey|Hex]; [by rewrite E1, E2 in Hkey|done]. }
    destruct (String.eqb key "timestamps") eqn:E3.
    { destruct hasTimerQuery; simpl;
        (apply IH; apply Exists_cons in Hex as [Hkey|Hex];
         [by rewrite E1, E2, E3 in Hkey|done]). }
    by eexists.
Qed.

(** C7. A list of known keys never makes [isSupported] throw, and each key
    can only take support away: the answer is (webgl2 or timer extension) and
    every key's own requirement - 'queries' WebGL2, 'timers' the timer
    extension, 'timestamps' the timer extension with a positive
    QUERY_COUNTER_BITS for TIMESTAMP.  A list with an unknown key does not
    answer false: the assertion fails. *)
Theorem isSupported_narrows_or_asserts g opts :
  (Forall (λ key, recognized key = true) opts →
     (Query.isSupported g opts).1 =
       Returned ((GL.webgl2 g || GL.timerQuery g) && forallb (capability g) opts) ∧
     ∀ key, recognized key = true →
       (Query.isSupported g (opts ++ [key])).1 =
         Returned ((GL.webgl2 g || GL.timerQuery g) && forallb (capability g) opts
                   && capability g key)) ∧
  (Exists (λ key, recognized key = false) opts →
     ∃ message, (Query.isSupported g opts).1 = Thrown message).
Proof.
  split.
  - intros Hall. split.
    + by apply isSupported_keys_recognized.
    + intros key Hkey. unfold Query.isSupported.
      rewrite isSupported_keys_recognized; [|done|].
      * rewrite forallb_app. simpl. by rewrite andb_true_r, andb_assoc.
      * apply Forall_app. split; [done|]. by apply Forall_singleton.
  - apply isSupported_keys_unrecognized.
Qed.

Example isSupported_timestamps :
  (Query.isSupported sampleContext ["queries"; "timestamps"]).1 = Returned true.
Proof. reflexivity. Qed.

Example isSupported_unknown_key :
  (Query.isSupported sampleContext ["queries"; "timer"; "timestamps"]).1 =
    Thrown "luma.gl: assertion failed.".
Proof. reflexivity. Qed.

End IsSupported.

(** ** AnimationLoop.setNeedsRedraw *)

Section NeedsRedraw.
Import AnimationLoop.

Implicit Types (loop : AnimationLoop.t) (reason : Value).

Lemma typeof_string reason :
  String.eqb (typeof reason) "string" = true ↔ ∃ s, reason = str s.
Proof.
  destruct reason; simpl; split; try done; try by intros [? [=]].
  by eexists.
Qed.

(** C9, as the code has it.  Once [needsRedraw] holds a non-empty reason, a
    later [setNeedsRedraw(reason2)] leaves the whole loop as it is, whatever
    string [reason2] is: the first reason stays until [_clearNeedsRedraw]
    puts null back, after which the next reason is taken.  Calling it twice
    with one reason is the same as calling it once.  An argument that is not
    a string fails the assertion; otherwise the same loop object comes back,
    with only [needsRedraw] possibly changed. *)
Theorem setNeedsRedraw_keeps_first_reason loop first :
  needsRedraw loop = str first → first ≠ "" →
  (∀ reason2 : string, setNeedsRedraw loop (str reason2) = Returned loop) ∧
  (∀ reason2 : string,
     setNeedsRedraw (_clearNeedsRedraw loop) (str reason2) =
       Returned (mkLoop (str reason2) (_initialized loop) (_running loop))) ∧
  (∀ loop0 reason loop1,
     setNeedsRedraw loop0 reason = Returned loop1 →
     setNeedsRedraw loop1 reason = Returned loop1 ∧
     _initialized loop1 = _initialized loop0 ∧ _running loop1 = _running loop0) ∧
  (∀ loop0 reason,
     String.eqb (typeof reason) "string" = false →
     setNeedsRedraw loop0 reason = Thrown "luma.gl: assertion failed.").
Proof.
  intros Hfirst Hne. split_and!.
  - intros reason2. unfold setNeedsRedraw, logical_or. simpl. rewrite Hfirst. simpl.
    destruct (String.eqb_spec first ""); [done|]. simpl.
    rewrite <- Hfirst. by destruct loop.
  - done.
  - intros loop0 reason loop1. unfold setNeedsRedraw.
    destruct (String.eqb (typeof reason) "string") eqn:Htype; simpl; [|done].
    intros [= <-]. simpl. split; [|done]. f_equal. f_equal.
    unfold logical_or. destruct (truthy (needsRedraw loop0)) eqn:Hold.
    + by rewrite Hold.
    + by destruct (truthy reason).
  - intros loop0 reason Htype. unfold setNeedsRedraw. by rewrite Htype.
Qed.

Lemma setNeedsRedraw_keeps_first_reason_witness :
  (∀ reason2 : string, setNeedsRedraw resizedLoop (str reason2) = Returned resizedLoop) ∧
  (∀ reason2 : string,
     setNeedsRedraw (_clearNeedsRedraw resizedLoop) (str reason2) =
       Returned (mkLoop (str reason2) (_initialized resizedLoop) (_running resizedLoop))) ∧
  (∀ loop0 reason loop1,
     setNeedsRedraw loop0 reason = Returned loop1 →
     setNeedsRedraw loop1 reason = Returned loop1 ∧
     _initialized loop1 = _initialized loop0 ∧ _running loop1 = _running loop0) ∧
  (∀ loop0 reason,
     String.eqb (typeof reason) "string" = false →
     setNeedsRedraw loop0 reason = Thrown "luma.gl: assertion failed.").
Proof.
  apply (setNeedsRedraw_keeps_first_reason resizedLoop "drawing buffer resized");
    [reflexivity | discriminate].
Defined.

(** C9, as stated, fails on the empty string, which is a non-null string and
    passes the assertion: a loop whose [needsRedraw] holds it takes the next
    reason.  Such a loop arises from [setNeedsRedraw('')] on a new loop. *)
Lemma setNeedsRedraw_replaces_empty_reason :
  setNeedsRedraw new (str "") = Returned emptyReasonLoop ∧
  needsRedraw emptyReasonLoop = str "" ∧
  needsRedraw emptyReasonLoop ≠ null ∧
  setNeedsRedraw emptyReasonLoop (str "drawing buffer resized") = Returned resizedLoop ∧
  resizedLoop ≠ emptyReasonLoop.
Proof. split_and!; done. Qed.

End NeedsRedraw.

(** ** Group.add *)

Section GroupAdd.
Import Group.

Implicit Types (this : Group.t) (h : Heap) (args leaves : list Value) (fuel : nat).

Lemma unpack_loop_mono (r1 r2 : list Value → option (list ArrayRef * list Value)) h :
  (∀ args res, r1 args = Some res → r2 args = Some res) →
  ∀ args res, unpack_loop r1 h args = Some res → unpack_loop r2 h args = Some res.
Proof.
  intros Hr. induction args as [|[n|a] args IH]; intros res Hres; simpl in *.
  - done.
  - destruct (unpack_loop r1 h args) as [[arrays2 leaves2]|]; [|done].
    by rewrite (IH _ eq_refl).
  - destruct (h !! a) as [elements|]; [|done].
    destruct (r1 elements) as [[arrays1 leaves1]|] eqn:Helements; [|done].
    destruct (unpack_loop r1 h args) as [[arrays2 leaves2]|]; [|done].
    by rewrite (Hr _ _ Helements), (IH _ eq_refl).
Qed.

(** More stack never changes what is unpacked. *)
Lemma unpack_mono h : ∀ fuel fuel' args res,
  unpack fuel h args = Some res → (fuel ≤ fuel')%nat → unpack fuel' h args = Some res.
Proof.
  induction fuel as [|fuel IH]; intros fuel' args res Hres Hle; [done|].
  destruct fuel' as [|fuel']; [lia|]. simpl in *.
  eapply unpack_loop_mono; [|done].
  intros args' res' Hres'. apply (IH fuel'); [done|lia].
Qed.

Lemma alter_app_app (c : ArrayRef) (xs ys : list Value) h :
  alter (λ l, l ++ ys) c (alter (λ l, l ++ xs) c h) = alter (λ l, l ++ xs ++ ys) c h.
Proof.
  rewrite alter_alter_eq. apply alter_ext. intros l _. simpl. by rewrite app_assoc.
Qed.

Lemma add_loop_unpack this h0 (recur : list Value → Heap → option Heap)
    (urecur : list Value → option (list ArrayRef * list Value)) :
  (∀ args h arrays leaves,
     (∀ a, a ≠ children this → h !! a = h0 !! a) →
     urecur args = Some (arrays, leaves) → children this ∉ arrays →
     recur args h = Some (alter (λ l, l ++ leaves) (children this) h)) →
  ∀ args h arrays leaves,
    (∀ a, a ≠ children this → h !! a = h0 !! a) →
    unpack_loop urecur h0 args = Some (arrays, leaves) → children this ∉ arrays →
    add_loop recur this args h = Some (alter (λ l, l ++ leaves) (children this) h).
Proof.
  intros Hrecur. induction args as [|[n|a] args IH]; intros h arrays leaves Hagree Hun Hc;
    simpl in *.
  - injection Hun as <- <-. f_equal. symmetry. apply map_eq. intros i.
    rewrite lookup_alter. case_decide; [|done]. subst.
    destruct (h !! children this); simpl; [|done]. by rewrite app_nil_r.
  - destruct (unpack_loop urecur h0 args) as [[arrays2 leaves2]|] eqn:Hrest; [|done].
    injection Hun as <- <-.
    rewrite (IH _ arrays2 leaves2); [| |done|done].
    + unfold push. by rewrite alter_app_app.
    + intros a Ha. unfold push. rewrite lookup_alter_ne by done. by apply Hagree.
  - destruct (h0 !! a) as [elements|] eqn:Ha; [|done].
    destruct (urecur elements) as [[arrays1 leaves1]|] eqn:Helements; [|done].
    destruct (unpack_loop urecur h0 args) as [[arrays2 leaves2]|] eqn:Hrest; [|done].
    injection Hun as <- <-.
    apply not_elem_of_cons in Hc as [Hne Hc]. apply not_elem_of_app in Hc as [Hc1 Hc2].
    rewrite Hagree, Ha by done.
    rewrite (Hrecur _ _ arrays1 leaves1) by done.
    rewrite (IH _ arrays2 leaves2); [| |done|done].
    + by rewrite alter_app_app.
    + intros a' Ha'. rewrite lookup_alter_ne by done. by apply Hagree.
Qed.

Lemma add_heap_unpack this h0 : ∀ fuel args h arrays leaves,
  (∀ a, a ≠ children this → h !! a = h0 !! a) →
  unpack fuel h0 args = Some (arrays, leaves) → children this ∉ arrays →
  add_heap fuel this args h = Some (alter (λ l, l ++ leaves) (children this) h).
Proof.
  induction fuel as [|fuel IH]; intros args h arrays leaves Hagree Hun Hc; [done|].
  simpl in *. eapply add_loop_unpack; [|done..]. apply IH.
Qed.

(** C10, as the code has it.  When none of the arrays nested in the arguments
    is the group's own [children] array, [add(...)] appends to [children]
    exactly the non-array leaves of the arguments, depth first and left to
    right, behind the children already there, changes no other array, and
    returns the same Group; any call stack deep enough for the nesting will
    do. *)
Theorem add_appends_leaves_in_order this args h previous arrays leaves fuel0 fuel :
  h !! children this = Some previous →
  unpack fuel0 h args = Some (arrays, leaves) →
  children this ∉ arrays →
  (fuel0 ≤ fuel)%nat →
  add fuel this args h = Some (this, <[children this := previous ++ leaves]> h).
Proof.
  intros Hprev Hun Hc Hle. unfold add.
  rewrite (add_heap_unpack this h fuel args h arrays leaves); [|done| |done].
  - do 2 f_equal. apply map_eq. intros i.
    rewrite lookup_alter, lookup_insert. case_decide; [|done]. subst. by rewrite Hprev.
  - by apply (unpack_mono h fuel0).
Qed.

Lemma add_appends_leaves_in_order_witness :
  add 7 sampleGroup [node 4%positive; array 20%positive] sampleHeap =
    Some (sampleGroup,
          <[children sampleGroup :=
              [node 1%positive] ++ [node 4%positive; node 2%positive; node 3%positive]]>
            sampleHeap).
Proof.
  apply (add_appends_leaves_in_order sampleGroup _ sampleHeap [node 1%positive]
           [20%positive; 21%positive] _ 3 7).
  - reflexivity.
  - reflexivity.
  - vm_compute. intros Hin. repeat (apply elem_of_cons in Hin as [[=]|Hin]).
    by apply elem_of_nil in Hin.
  - lia.
Defined.

(** C10, as stated, fails when an argument is the group's own [children]
    array.  [group.add(group.children, group.children)] on a group with one
    child: the arguments hold two leaves when the call is made, but the second
    spread reads the array after the first has grown it, and three nodes are
    appended. *)
Lemma add_own_children_twice :
  unpack 2 sampleHeap [array 10%positive; array 10%positive] =
    Some ([10%positive; 10%positive], [node 1%positive; node 1%positive]) ∧
  (add 2 sampleGroup [array 10%positive; array 10%positive] sampleHeap
     ≫= λ r, r.2 !! children r.1) =
    Some ([node 1%positive] ++ [node 1%positive; node 1%positive; node 1%positive]) ∧
  add 2 sampleGroup [array 10%positive; array 10%positive] sampleHeap ≠
    Some (sampleGroup,
          <[children sampleGroup := [node 1%positive] ++ [node 1%positive; node 1%positive]]>
            sampleHeap).
Proof.
  split_and!; [by vm_compute..|].
  intros Heq. apply (f_equal (λ o, o ≫= λ r : t * Heap, r.2 !! children r.1)) in Heq.
  by vm_compute in Heq.
Qed.

End GroupAdd.

(** * Further properties of the code *)

(** ** Query: the life cycle as a whole *)

Section QueryStateMachine.
Import QueryManager.

Implicit Types (q : Query.t) (w : World) (target : Z).

(** X1. Every method of Query keeps the object consistent: whenever
    [queryPending] is true, [target] is null.  A new Query is consistent. *)
Theorem methods_keep_query_consistent q w :
  consistent q →
  (∀ target, consistent (Query.begin q target w).1) ∧
  consistent (Query.end_ q w).1 ∧
  consistent (Query.cancel q w).1 ∧
  consistent (Query.isResultAvailable q w).1.2 ∧
  consistent (Query.getTimestamp q w).1 ∧
  (∀ r h onComplete onError, consistent (Query.new r h onComplete onError)).
Proof.
  intros Hq.
  assert (consistent (Query.end_ q w).1) as Hend.
  { unfold Query.end_, consistent in *.
    destruct (Query.queryPending q) eqn:Hp; [by simpl; rewrite Hp|].
    destruct (Query.target q) as [target|]; [|by simpl; rewrite Hp].
    destruct (target =? 0); [by simpl; rewrite Hp | done]. }
  split_and!.
  - intros target. unfold Query.begin, consistent in *.
    destruct (Query.queryPending q) eqn:Hp; [by simpl; rewrite Hp|].
    destruct (GL.do_beginQuery _ _ _). simpl. by rewrite Hp.
  - done.
  - unfold Query.cancel. by destruct (Query.end_ q w).
  - unfold Query.isResultAvailable, consistent in *.
    destruct (Query.queryPending q) eqn:Hp; simpl; [|by rewrite Hp].
    destruct (GL.resultAvailable _ _); simpl; [done | by rewrite Hp].
  - unfold Query.getTimestamp. by destruct (GL.do_queryCounter _ _ _).
  - done.
Qed.

Lemma methods_keep_query_consistent_witness :
  (∀ target, consistent (Query.begin openQuery target sampleWorld).1) ∧
  consistent (Query.end_ openQuery sampleWorld).1 ∧
  consistent (Query.cancel openQuery sampleWorld).1 ∧
  consistent (Query.isResultAvailable openQuery sampleWorld).1.2 ∧
  consistent (Query.getTimestamp openQuery sampleWorld).1 ∧
  (∀ r h onComplete onError, consistent (Query.new r h onComplete onError)).
Proof. apply (methods_keep_query_consistent openQuery sampleWorld). discriminate. Defined.

(** X2. [end()] twice is [end()] once: the second call changes neither the
    Query nor the world, so gl.endQuery is never issued twice for one
    interval. *)
Theorem end_twice_is_end_once q w :
  Query.end_ (Query.end_ q w).1 (Query.end_ q w).2 = Query.end_ q w.
Proof.
  unfold Query.end_.
  destruct (Query.queryPending q) eqn:Hp; simpl; [by rewrite Hp|].
  destruct (Query.target q) as [target|] eqn:Ht; simpl; [|by rewrite Hp, Ht].
  destruct (target =? 0) eqn:H0; simpl; [by rewrite Hp, Ht, H0 | done].
Qed.



(** X4. [begin(target)] on a Query without unread result never throws.  It
    calls the manager's beginQuery, records the target, and - exactly when
    gl.beginQuery throws - calls the manager's rejectQuery with 'Query not
    supported'; it makes no other call on the manager. *)
Theorem begin_reports_failure_to_manager q target w :
  Query.queryPending q = false →
  let r := Query.begin q target w in
  r.1 = Query.set_target (Some target) q ∧
  managerCalls (newEvents w r.2) =
    callBeginQuery (Query.ref q) (Query.onComplete q) (Query.onError q) ::
    (if GL.beginQueryFails (gl w) target (Query.handle q)
     then [callRejectQuery (Query.ref q) "Query not supported"] else []).
Proof.
  intros Hp. unfold Query.begin. rewrite Hp. simpl.
  destruct (GL.beginQueryFails (gl w) target (Query.handle q)); simpl.
  - unfold rejectQuery. simpl. rewrite lookup_insert_eq. simpl. split; [done|].
    erewrite newEvents_app; [|simpl; rewrite <- !app_assoc; reflexivity]. done.
  - split; [done|]. erewrite newEvents_app; [|reflexivity]. done.
Qed.

Lemma begin_reports_failure_to_manager_witness :
  let r := Query.begin freshQuery GL.TIME_ELAPSED_EXT sampleWorld in
  r.1 = Query.set_target (Some GL.TIME_ELAPSED_EXT) freshQuery ∧
  managerCalls (newEvents sampleWorld r.2) =
    callBeginQuery (Query.ref freshQuery) (Query.onComplete freshQuery)
      (Query.onError freshQuery) ::
    (if GL.beginQueryFails (gl sampleWorld) GL.TIME_ELAPSED_EXT (Query.handle freshQuery)
     then [callRejectQuery (Query.ref freshQuery) "Query not supported"] else []).
Proof.
  apply (begin_reports_failure_to_manager freshQuery GL.TIME_ELAPSED_EXT sampleWorld).
  reflexivity.
Defined.


End QueryStateMachine.

(** ** Query.isSupported: what the answer depends on *)

Section IsSupportedMore.

Implicit Types (g : GL.Context) (opts : list string).

Lemma isSupported_keys_unknown webgl2 hasTimerQuery : ∀ opts supported g',
  Exists (λ key, recognized key = false) opts →
  (Query.isSupported_keys webgl2 hasTimerQuery opts supported g').1 =
    Thrown "luma.gl: assertion failed.".
Proof.
  induction opts as [|key opts IH]; intros supported g' Hex.
  - by apply Exists_nil in Hex.
  - simpl. unfold recognized in Hex.
    destruct (String.eqb key "queries") eqn:E1.
    { apply IH. apply Exists_cons in Hex as [Hkey|Hex]; [by rewrite E1 in Hkey|done]. }
    destruct (String.eqb key "timers") eqn:E2.
    { apply IH. apply Exists_cons in Hex as [Hkey|Hex]; [by rewrite E1, E2 in Hkey|done]. }
    destruct (String.eqb key "timestamps") eqn:E3; [|done].
    destruct hasTimerQuery; simpl;
      (apply IH; apply Exists_cons in Hex as [Hkey|Hex];
       [by rewrite E1, E2, E3 in Hkey|done]).
Qed.

Lemma known_or_unknown opts :
  Forall (λ key, recognized key = true) opts ∨ Exists (λ key, recognized key = false) opts.
Proof.
  induction opts as [|key opts [IH|IH]].
  - by left.
  - destruct (recognized key) eqn:Hkey.
    + left. by constructor.
    + right. by constructor.
  - right. by constructor 2.
Qed.

Lemma isSupported_true_known g opts :
  (Query.isSupported g opts).1 = Returned true →
  Forall (λ key, recognized key = true) opts ∧
  (GL.webgl2 g || GL.timerQuery g) && forallb (capability g) opts = true.
Proof.
  intros Htrue. destruct (known_or_unknown opts) as [Hall|Hex].
  - split; [done|]. unfold Query.isSupported in Htrue.
    rewrite isSupported_keys_recognized in Htrue by done. by injection Htrue.
  - unfold Query.isSupported in Htrue. by rewrite isSupported_keys_unknown in Htrue.
Qed.

Lemma forallb_Permutation {A} (f : A → bool) (l l' : list A) :
  l ≡ₚ l' → forallb f l = forallb f l'.
Proof.
  induction 1 as [|x l l' _ IH|x y l|l l' l'' _ IH1 _ IH2]; simpl.
  - done.
  - by rewrite IH.
  - by destruct (f x), (f y).
  - by rewrite IH1.
Qed.

(** X6. The answer of [isSupported] does not depend on the order of the
    keys: two lists that are permutations of each other get the same answer,
    or the same assertion failure. *)
Theorem isSupported_ignores_order g opts opts' :
  opts ≡ₚ opts' → (Query.isSupported g opts).1 = (Query.isSupported g opts').1.
Proof.
  intros Hperm. unfold Query.isSupported.
  destruct (known_or_unknown opts) as [Hall|Hex].
  - rewrite !isSupported_keys_recognized; [|done|by rewrite <- Hperm|done..].
    by rewrite (forallb_Permutation _ _ _ Hperm).
  - rewrite !isSupported_keys_unknown; [done|by rewrite <- Hperm|done].
Qed.

Lemma isSupported_ignores_order_witness :
  (Query.isSupported sampleContext ["timestamps"; "queries"]).1 =
  (Query.isSupported sampleContext ["queries"; "timestamps"]).1.
Proof. apply isSupported_ignores_order. apply Permutation_swap. Defined.

Lemma isSupported_keys_no_timer webgl2 : ∀ opts supported g',
  (Query.isSupported_keys webgl2 false opts supported g').2 = g'.
Proof.
  induction opts as [|key opts IH]; intros supported g'; simpl; [done|].
  destruct (String.eqb key "queries"); [apply IH|].
  destruct (String.eqb key "timers"); [apply IH|].
  destruct (String.eqb key "timestamps"); [apply IH | done].
Qed.

(** X7. Without the timer extension [isSupported] makes no call on the
    context at all, whatever keys it is given: the QUERY_COUNTER_BITS read
    for 'timestamps' is issued only when the extension is there. *)
Theorem isSupported_without_timer_extension_is_silent g opts :
  GL.timerQuery g = false → (Query.isSupported g opts).2 = g.
Proof. intros Hno. unfold Query.isSupported. rewrite Hno. apply isSupported_keys_no_timer. Qed.

Lemma isSupported_without_timer_extension_is_silent_witness :
  (Query.isSupported webgl2OnlyContext ["timestamps"; "timers"; "queries"; "timestamps"]).2 =
    webgl2OnlyContext.
Proof. apply isSupported_without_timer_extension_is_silent. reflexivity. Defined.

(** X8. Asking for less never loses support: if [isSupported] answers true
    for a list of keys, it answers true for every list made of some of
    those keys. *)
Theorem isSupported_fewer_keys g opts opts' :
  (∀ key, key ∈ opts → key ∈ opts') →
  (Query.isSupported g opts').1 = Returned true →
  (Query.isSupported g opts).1 = Returned true.
Proof.
  intros Hsub Htrue. apply isSupported_true_known in Htrue as [Hall Hand].
  apply andb_true_iff in Hand as [Hbase Hcaps].
  rewrite forallb_forall in Hcaps. rewrite Forall_forall in Hall.
  unfold Query.isSupported. rewrite isSupported_keys_recognized; [|done|].
  - rewrite Hbase. simpl. f_equal. apply forallb_forall.
    intros key Hkey. apply Hcaps. apply list_elem_of_In, Hsub. by apply list_elem_of_In.
  - apply Forall_forall. intros key Hkey. by apply Hall, Hsub.
Qed.

Lemma isSupported_fewer_keys_witness :
  (Query.isSupported sampleContext ["timestamps"]).1 = Returned true.
Proof.
  apply (isSupported_fewer_keys sampleContext ["timestamps"] ["queries"; "timestamps"]).
  - intros key Hkey. apply elem_of_cons in Hkey as [->|Hkey]; [by right; left|].
    by apply elem_of_nil in Hkey.
  - reflexivity.
Defined.

(** X9. A true answer is sound for every key asked: 'queries' means the
    context is WebGL2, 'timers' means the timer extension is there, and
    'timestamps' means the extension is there and reports a positive number
    of counter bits for TIMESTAMP. *)
Theorem isSupported_true_means_capable g opts :
  (Query.isSupported g opts).1 = Returned true →
  ("queries" ∈ opts → GL.webgl2 g = true) ∧
  ("timers" ∈ opts → GL.timerQuery g = true) ∧
  ("timestamps" ∈ opts →
     GL.timerQuery g = true ∧
     0 < GL.queryValue g GL.TIMESTAMP_EXT GL.QUERY_COUNTER_BITS_EXT).
Proof.
  intros Htrue. apply isSupported_true_known in Htrue as [_ Hand].
  apply andb_true_iff in Hand as [_ Hcaps]. rewrite forallb_forall in Hcaps.
  split_and!; intros Hin%list_elem_of_In%Hcaps; try done.
  unfold capability in Hin. simpl in Hin.
  apply andb_true_iff in Hin as [Ht Hbits]. split; [done|]. by apply Z.ltb_lt.
Qed.

Lemma isSupported_true_means_capable_witness :
  ("queries" ∈ ["queries"; "timestamps"] → GL.webgl2 sampleContext = true) ∧
  ("timers" ∈ ["queries"; "timestamps"] → GL.timerQuery sampleContext = true) ∧
  ("timestamps" ∈ ["queries"; "timestamps"] →
     GL.timerQuery sampleContext = true ∧
     0 < GL.queryValue sampleContext GL.TIMESTAMP_EXT GL.QUERY_COUNTER_BITS_EXT).
Proof. apply (isSupported_true_means_capable sampleContext ["queries"; "timestamps"]). reflexivity. Defined.

End IsSupportedMore.

(** ** Group: the constructor, remove and removeAll *)

Section GroupChildren.
Import Group.

Implicit Types (this : Group.t) (h : Heap) (child : Value) (elements : list Value).

Lemma indexOf_from_absent child : ∀ elements from,
  child ∉ elements → indexOf_from from elements child = -1.
Proof.
  induction elements as [|x elements IH]; intros from Hout; simpl; [done|].
  apply not_elem_of_cons in Hout as [Hne Hout].
  rewrite decide_False by done. by apply IH.
Qed.

Lemma indexOf_from_first child : ∀ before from after,
  child ∉ before →
  indexOf_from from (before ++ child :: after) child = from + Z.of_nat (length before).
Proof.
  induction before as [|x before IH]; intros from after Hout; simpl.
  - rewrite decide_True by done. lia.
  - apply not_elem_of_cons in Hout as [Hne Hout].
    rewrite decide_False by done. rewrite IH by done. lia.
Qed.

Lemma splice_one before child after :
  splice (Z.of_nat (length before)) 1 (before ++ child :: after) = before ++ after.
Proof.
  unfold splice. rewrite Nat2Z.id.
  rewrite take_app_length. rewrite drop_app_add'; [|done]. done.
Qed.

Lemma remove_first this child h before after :
  h !! children this = Some (before ++ child :: after) →
  child ∉ before →
  remove this child h = (this, <[children this := before ++ after]> h).
Proof.
  intros Hc Hout. unfold remove. f_equal. apply map_eq. intros a.
  rewrite lookup_alter, lookup_insert. case_decide; [|done].
  rewrite Hc. simpl. unfold indexOf. rewrite indexOf_from_first by done.
  destruct (Z.ltb_spec (-1) (0 + Z.of_nat (length before))); [|lia].
  by rewrite Z.add_0_l, splice_one.
Qed.

(** X10. [remove(child)] takes out the first occurrence of the child, and
    only that one: the children before it and all children after it - later
    occurrences of the same object included - stay, in order; no other array
    changes, and the Group returned is the same. *)
Theorem remove_takes_out_first_occurrence this child h before after :
  h !! children this = Some (before ++ child :: after) →
  child ∉ before →
  remove this child h = (this, <[children this := before ++ after]> h) ∧
  (∀ a, a ≠ children this →
     (remove this child h).2 !! a = h !! a) ∧
  (remove this child h).2 !! children this = Some (before ++ after).
Proof.
  intros Hc Hout. rewrite (remove_first this child h before after) by done.
  split_and!; [done| |].
  - intros a Hne. simpl. by rewrite lookup_insert_ne.
  - simpl. apply lookup_insert_eq.
Qed.

Lemma remove_takes_out_first_occurrence_witness :
  let h := <[10%positive := [node 1%positive; node 2%positive; node 3%positive;
                             node 2%positive]]> sampleHeap in
  remove sampleGroup (node 2%positive) h =
    (sampleGroup,
     <[children sampleGroup := [node 1%positive] ++ [node 3%positive; node 2%positive]]> h) ∧
  (∀ a, a ≠ children sampleGroup →
     (remove sampleGroup (node 2%positive) h).2 !! a = h !! a) ∧
  (remove sampleGroup (node 2%positive) h).2 !! children sampleGroup =
    Some ([node 1%positive] ++ [node 3%positive; node 2%positive]).
Proof.
  apply (remove_takes_out_first_occurrence sampleGroup (node 2%positive) _
           [node 1%positive] [node 3%positive; node 2%positive]).
  - reflexivity.
  - intros Hin. apply elem_of_cons in Hin as [[=]|Hin]. by apply elem_of_nil in Hin.
Defined.

(** X11. [remove(child)] of something that is not among the children changes
    nothing at all. *)
Theorem remove_of_stranger_changes_nothing this child h elements :
  h !! children this = Some elements → child ∉ elements →
  remove this child h = (this, h).
Proof.
  intros Hc Hout. unfold remove. f_equal. apply map_eq. intros a.
  rewrite lookup_alter. case_decide; [|done]. subst a.
  rewrite Hc. simpl. unfold indexOf. by rewrite indexOf_from_absent.
Qed.

Lemma remove_of_stranger_changes_nothing_witness :
  remove sampleGroup (node 2%positive) sampleHeap = (sampleGroup, sampleHeap).
Proof.
  apply (remove_of_stranger_changes_nothing sampleGroup (node 2%positive) sampleHeap
           [node 1%positive]).
  - reflexivity.
  - intros Hin. apply elem_of_cons in Hin as [[=]|Hin]. by apply elem_of_nil in Hin.
Defined.

(** X12. Adding a node that is not yet a child and removing it again gives
    back the group as it was: the children array holds what it held. *)
Theorem add_then_remove_restores this n h previous :
  h !! children this = Some previous → node n ∉ previous →
  ∃ h1, add 1 this [node n] h = Some (this, h1) ∧
        h1 !! children this = Some (previous ++ [node n]) ∧
        remove this (node n) h1 = (this, h).
Proof.
  intros Hc Hout. exists (push (children this) (node n) h).
  assert (push (children this) (node n) h !! children this = Some (previous ++ [node n]))
    as Hpushed.
  { unfold push. by rewrite lookup_alter_eq, Hc. }
  split_and!; [done..|].
  rewrite (remove_first this (node n) _ previous []) by done.
  f_equal. rewrite app_nil_r. unfold push. apply map_eq. intros a.
  rewrite lookup_insert, lookup_alter. case_decide; [by subst | done].
Qed.

Lemma add_then_remove_restores_witness :
  ∃ h1, add 1 sampleGroup [node 9%positive] sampleHeap = Some (sampleGroup, h1) ∧
        h1 !! children sampleGroup = Some ([node 1%positive] ++ [node 9%positive]) ∧
        remove sampleGroup (node 9%positive) h1 = (sampleGroup, sampleHeap).
Proof.
  apply (add_then_remove_restores sampleGroup 9%positive sampleHeap [node 1%positive]).
  - reflexivity.
  - intros Hin. apply elem_of_cons in Hin as [[=]|Hin]. by apply elem_of_nil in Hin.
Defined.

(** X13. [removeAll()] does not empty the array the group holds: it binds a
    new, empty array.  Every array that existed before, the former children
    array included, keeps its elements - so whoever else holds that array
    (the caller who passed it to the constructor, say) still sees the nodes,
    while the group has none. *)
Theorem removeAll_binds_a_new_array this h :
  let r := removeAll this h in
  ref r.1 = ref this ∧
  r.2 !! children r.1 = Some [] ∧
  h !! children r.1 = None ∧
  (∀ a elements, h !! a = Some elements → r.2 !! a = Some elements) ∧
  (is_Some (h !! children this) → children r.1 ≠ children this).
Proof.
  assert (h !! fresh (dom h) = None) as Hfresh.
  { apply not_elem_of_dom. apply is_fresh. }
  simpl. split_and!.
  - done.
  - apply lookup_insert_eq.
  - done.
  - intros a elements Ha. rewrite lookup_insert_ne; [done|]. intros <-. congruence.
  - intros [elements Hc] Heq. rewrite <- Heq in Hc. congruence.
Qed.

(** X14. The constructor looks at the first child only.  The callback it
    hands to [every] returns what [assert] returns, which is nothing, so
    [every] stops after one element: an array that starts with a node is
    accepted whatever follows it, an array that starts with something that is
    not a Node fails the assertion, and an empty array is accepted.  The
    group keeps the caller's array itself as its children. *)
Theorem constructor_checks_first_child_only r a h :
  (∀ n rest, h !! a = Some (node n :: rest) →
     new r (optsArray a) h = Returned (mkGroup r a, h)) ∧
  (∀ a' rest, h !! a = Some (array a' :: rest) →
     new r (optsArray a) h = Thrown "luma.gl: assertion failed.") ∧
  (h !! a = Some [] → new r (optsArray a) h = Returned (mkGroup r a, h)).
Proof.
  split_and!.
  - intros n rest Ha. unfold new. by rewrite Ha.
  - intros a' rest Ha. unfold new. by rewrite Ha.
  - intros Ha. unfold new. by rewrite Ha.
Qed.

Example constructor_accepts_nested_array_after_node :
  new 6%positive (optsArray 20%positive) sampleHeap =
    Returned (mkGroup 6%positive 20%positive, sampleHeap).
Proof. reflexivity. Qed.

End GroupChildren.

(** ** Group.traverse *)

Section GroupTraverse.
Import Group.

Context {Matrix : Type} (identity : Matrix) (multiplyRight : Matrix → Matrix → Matrix).

Implicit Types (groups : gmap NodeRef (Group.t * Matrix)) (h : Heap) (this : Group.t * Matrix).

Lemma traverse_loop_leaves groups
    (recur : Group.t * Matrix → Matrix → option (list (Value * Matrix))) :
  (∀ group m visits, recur group m = Some visits →
     ∀ visit, visit ∈ visits → asGroup groups visit.1 = None) →
  ∀ elements m visits, traverse_loop recur groups m elements = Some visits →
    ∀ visit, visit ∈ visits → asGroup groups visit.1 = None.
Proof.
  intros Hrecur. induction elements as [|child elements IH]; intros m visits Hloop visit Hin;
    simpl in Hloop.
  - injection Hloop as <-. by apply elem_of_nil in Hin.
  - destruct (asGroup groups child) as [group|] eqn:Hchild.
    + destruct (recur group m) as [visits1|] eqn:Hgroup; [|done].
      destruct (traverse_loop recur groups m elements) as [visits2|] eqn:Hrest; [|done].
      injection Hloop as <-. apply elem_of_app in Hin as [Hin|Hin].
      * by eapply Hrecur.
      * by eapply IH.
    + destruct (traverse_loop recur groups m elements) as [visits2|] eqn:Hrest; [|done].
      injection Hloop as <-. apply elem_of_cons in Hin as [->|Hin]; [done|].
      by eapply IH.
Qed.

(** X15. [traverse] never hands a Group to the visitor: every child the
    visitor is called with is something other than a Group of the scene
    (groups are entered, not visited). *)
Theorem traverse_visits_no_group fuel groups h this worldMatrix visits :
  traverse identity multiplyRight fuel groups h this worldMatrix = Some visits →
  ∀ visit, visit ∈ visits → asGroup groups visit.1 = None.
Proof.
  revert this worldMatrix visits.
  induction fuel as [|fuel IH]; intros this worldMatrix visits Htraverse; [done|].
  simpl in Htraverse. destruct (h !! children this.1) as [elements|]; [|done].
  eapply traverse_loop_leaves; [|exact Htraverse].
  intros group m visits' Hgroup. simpl in Hgroup. by eapply IH.
Qed.

Lemma traverse_loop_children groups
    (recur : Group.t * Matrix → Matrix → option (list (Value * Matrix))) :
  (∀ group m1 m2, visited <$> recur group m1 = visited <$> recur group m2) →
  ∀ elements m1 m2,
    visited <$> traverse_loop recur groups m1 elements =
    visited <$> traverse_loop recur groups m2 elements.
Proof.
  intros Hrecur. induction elements as [|child elements IH]; intros m1 m2; simpl; [done|].
  specialize (IH m1 m2). destruct (asGroup groups child) as [group|].
  - specialize (Hrecur group m1 m2).
    destruct (recur group m1) as [v1|], (recur group m2) as [v2|]; simpl in *; try done.
    destruct (traverse_loop recur groups m1 elements) as [r1|],
             (traverse_loop recur groups m2 elements) as [r2|]; simpl in *; try done.
    injection Hrecur as Hv. injection IH as Hr. unfold visited in *.
    by rewrite !map_app, Hv, Hr.
  - destruct (traverse_loop recur groups m1 elements) as [r1|],
             (traverse_loop recur groups m2 elements) as [r2|]; simpl in *; try done.
    injection IH as Hr. unfold visited in *. simpl. by rewrite Hr.
Qed.

(** X16. Which children the visitor is called with, and in which order,
    does not depend on the world matrix handed to [traverse] (nor on whether
    one is handed over at all): the matrices only decide the matrix each call
    receives. *)
Theorem traverse_order_ignores_world_matrix fuel groups h this (world1 world2 : option Matrix) :
  visited <$> traverse identity multiplyRight fuel groups h this world1 =
  visited <$> traverse identity multiplyRight fuel groups h this world2.
Proof.
  revert this world1 world2.
  induction fuel as [|fuel IH]; intros this world1 world2; simpl; [done|].
  destruct (h !! children this.1) as [elements|]; [|done].
  apply traverse_loop_children. intros group m1 m2. apply IH.
Qed.

End GroupTraverse.

Lemma traverse_visits_no_group_witness :
  Forall (λ visit : Group.Value * Z, Group.asGroup sceneGroups visit.1 = None)
    [(Group.node 1%positive, 10); (Group.node 3%positive, 30); (Group.node 2%positive, 10)].
Proof.
  apply Forall_forall.
  apply (traverse_visits_no_group 1 Z.mul 5 sceneGroups sceneHeap sceneRoot (Some 5)).
  reflexivity.
Defined.

(** ** AnimationLoop: the frame timers *)

Section FrameTimers.
Import QueryManager Timers.

Implicit Types (q : Query.t) (w : World) (stats : list StatCall).

Lemma rejectQuery_gl query message w : gl (rejectQuery query message w) = gl w.
Proof. unfold rejectQuery. simpl. by destruct (_ !! _). Qed.

(** X17. [_beginTimers] hands a GPU time to the stats exactly when the
    query's result was unread, the context reports it available, and the
    disjoint flag is down; the time is the result divided by 1e6.  A result
    that became available across a disjoint GPU operation is dropped. *)
Theorem beginTimers_records_valid_gpu_time q w stats :
  let r := _beginTimers (Some q) w stats in
  ∃ added, r.2 = stats ++ added ∧
    gpuTimes added =
      if Query.queryPending q && GL.resultAvailable (gl w) (Query.handle q)
         && negb (GL.disjoint (gl w))
      then [(GL.queryResult (gl w) (Query.handle q) / 1e6)%float] else [].
Proof.
  unfold _beginTimers, Query.isResultAvailable, Query.beginTimeElapsedQuery, Query.begin,
    Query.isTimerDisjoint, Query.getTimerMilliseconds, Query.getResult.
  destruct (Query.queryPending q) eqn:Hp; simpl.
  - destruct (GL.resultAvailable (gl w) (Query.handle q)) eqn:Ha; simpl.
    + destruct (GL.disjoint (gl w)) eqn:Hd; simpl;
        (eexists; split; [by rewrite <- !app_assoc|done]).
    + rewrite Hp. simpl. eexists. split; [by rewrite <- !app_assoc|done].
  - rewrite Hp. simpl. eexists. split; [by rewrite <- !app_assoc|done].
Qed.

(** X18. While the last frame's result is still outstanding - unread and not
    yet available - a frame starts no new measurement: [_beginTimers] asks the
    context for availability and nothing else, [_endTimers] issues no call
    at all, and the Query and the manager are as they were. *)
Theorem timers_wait_for_outstanding_result q w stats :
  Query.queryPending q = true →
  GL.resultAvailable (gl w) (Query.handle q) = false →
  let r1 := _beginTimers (Some q) w stats in
  let r2 := _endTimers r1.1.1 r1.1.2 r1.2 in
  r1.1.1 = Some q ∧ r2.1.1 = Some q ∧
  r2.1.2 = r1.1.2 ∧
  GL.calls (gl r1.1.2) =
    GL.calls (gl w) ++ [GL.getQueryParameter (Query.handle q) GL.QUERY_RESULT_AVAILABLE] ∧
  manager r1.1.2 = manager w ∧ events r1.1.2 = events w ∧
  gpuTimes (drop (length stats) r2.2) = [].
Proof.
  intros Hp Ha. unfold _beginTimers, _endTimers, Query.isResultAvailable.
  rewrite Hp. simpl. rewrite Ha. simpl. unfold Query.beginTimeElapsedQuery, Query.begin.
  rewrite Hp. simpl. unfold Query.end_. rewrite Hp. simpl.
  split_and!; try done.
  rewrite <- !app_assoc. by rewrite drop_app_length.
Qed.

Lemma timers_wait_for_outstanding_result_witness :
  let r1 := _beginTimers (Some endedQuery) twoInFlight [] in
  let r2 := _endTimers r1.1.1 r1.1.2 r1.2 in
  r1.1.1 = Some endedQuery ∧ r2.1.1 = Some endedQuery ∧
  r2.1.2 = r1.1.2 ∧
  GL.calls (gl r1.1.2) =
    GL.calls (gl twoInFlight) ++
    [GL.getQueryParameter (Query.handle endedQuery) GL.QUERY_RESULT_AVAILABLE] ∧
  manager r1.1.2 = manager twoInFlight ∧ events r1.1.2 = events twoInFlight ∧
  gpuTimes (drop (length (@nil StatCall)) r2.2) = [].
Proof.
  apply (timers_wait_for_outstanding_result endedQuery twoInFlight []); reflexivity.
Defined.

(** X19. In every other frame - nothing unread, or the unread result now
    available - the timers measure the frame: after [_beginTimers] and
    [_endTimers] the Query has an unread result again ([queryPending] true,
    [target] null), and the context has seen, after the reads of the old
    result, one gl.beginQuery(TIME_ELAPSED_EXT, handle) followed by one
    gl.endQuery(TIME_ELAPSED_EXT). *)
Theorem timers_measure_each_frame q w stats :
  Query.queryPending q = false ∨ GL.resultAvailable (gl w) (Query.handle q) = true →
  let r1 := _beginTimers (Some q) w stats in
  let r2 := _endTimers r1.1.1 r1.1.2 r1.2 in
  r2.1.1 = Some (Query.set_queryPending true (Query.set_target None q)) ∧
  ∃ reads,
    GL.calls (gl r2.1.2) =
      GL.calls (gl w) ++ reads ++
      [GL.beginQuery GL.TIME_ELAPSED_EXT (Query.handle q); GL.endQuery GL.TIME_ELAPSED_EXT] ∧
    Forall (λ c, match c with
                 | GL.getQueryParameter _ _ | GL.getParameter _ => True
                 | _ => False
                 end) reads.
Proof.
  intros Hready.
  unfold _beginTimers, _endTimers, Query.isResultAvailable, Query.beginTimeElapsedQuery,
    Query.begin, Query.isTimerDisjoint, Query.getTimerMilliseconds, Query.getResult,
    Query.end_.
  destruct (Query.queryPending q) eqn:Hp; simpl.
  - destruct Hready as [?|Ha]; [done|]. rewrite Ha. simpl.
    destruct (GL.disjoint (gl w)); simpl;
      destruct (GL.beginQueryFails _ _ _); simpl; rewrite ?rejectQuery_gl; simpl;
      (split; [reflexivity|]);
      [eexists [_; _] | eexists [_; _] | eexists [_; _; _] | eexists [_; _; _]];
      (split; [by rewrite <- !app_assoc | by repeat constructor]).
  - rewrite Hp. simpl.
    destruct (GL.beginQueryFails (gl w) GL.TIME_ELAPSED_EXT (Query.handle q)); simpl;
      rewrite ?Hp; simpl; rewrite ?rejectQuery_gl; simpl;
      (split; [reflexivity|]); exists []; (split; [by rewrite <- !app_assoc|done]).
Qed.

Lemma timers_measure_each_frame_witness :
  let r1 := _beginTimers (Some freshQuery) sampleWorld [] in
  let r2 := _endTimers r1.1.1 r1.1.2 r1.2 in
  r2.1.1 = Some (Query.set_queryPending true (Query.set_target None freshQuery)) ∧
  ∃ reads,
    GL.calls (gl r2.1.2) =
      GL.calls (gl sampleWorld) ++ reads ++
      [GL.beginQuery GL.TIME_ELAPSED_EXT (Query.handle freshQuery);
       GL.endQuery GL.TIME_ELAPSED_EXT] ∧
    Forall (λ c, match c with
                 | GL.getQueryParameter _ _ | GL.getParameter _ => True
                 | _ => False
                 end) reads.
Proof. apply (timers_measure_each_frame freshQuery sampleWorld []). by left. Defined.

End FrameTimers.

(** ** AnimationLoop: stop, waitForRender and toDataURL *)

Section FrameScheduling.
Import Frames.

Implicit Types (this : Frames.t) (p : Platform).




(** X22. [toDataURL()] on a loop with no data-URL promise outstanding makes
    one, and leaves the loop needing a redraw: [needsRedraw] is truthy
    afterwards, and it is 'getCanvasDataUrl' when no reason was held.  Asking
    again before the redraw returns the same promise and changes nothing: the
    redraw is asked for once. *)
Theorem toDataURL_asks_for_one_redraw this p :
  _canvasDataURLPromise this = None →
  ∃ promise this' p',
    toDataURL this p = Returned (promise, this', p') ∧
    AnimationLoop.truthy (AnimationLoop.needsRedraw (loop this')) = true ∧
    (AnimationLoop.truthy (AnimationLoop.needsRedraw (loop this)) = false →
     AnimationLoop.needsRedraw (loop this') = AnimationLoop.str "getCanvasDataUrl") ∧
    toDataURL this' p' = Returned (promise, this', p').
Proof.
  intros Hnone. unfold toDataURL at 1. rewrite Hnone. simpl.
  do 3 eexists. split; [reflexivity|]. simpl. split_and!.
  - unfold AnimationLoop.logical_or.
    by destruct (AnimationLoop.truthy (AnimationLoop.needsRedraw (loop this))) eqn:Hheld.
  - intros Hfalsy. unfold AnimationLoop.logical_or. by rewrite Hfalsy.
  - done.
Qed.

Lemma toDataURL_asks_for_one_redraw_witness :
  ∃ promise this' p',
    toDataURL runningLoop browser = Returned (promise, this', p') ∧
    AnimationLoop.truthy (AnimationLoop.needsRedraw (loop this')) = true ∧
    (AnimationLoop.truthy (AnimationLoop.needsRedraw (loop runningLoop)) = false →
     AnimationLoop.needsRedraw (loop this') = AnimationLoop.str "getCanvasDataUrl") ∧
    toDataURL this' p' = Returned (promise, this', p').
Proof. apply (toDataURL_asks_for_one_redraw runningLoop browser). reflexivity. Defined.

End FrameScheduling.

(** ** AnimationLoop: setProps *)

Section SetProps.
Import ViewProps.

(** X23. Two calls of [setProps] amount to one call with both objects
    merged, the later object winning where both have a key. *)
Theorem setProps_twice_is_setProps_merged (this : ViewProps.t)
    (props1 props2 : gmap string AnimationLoop.Value) :
  setProps (setProps this props1) props2 = setProps this (props2 ∪ props1).
Proof.
  unfold setProps. rewrite !lookup_union.
  destruct (props1 !! "autoResizeViewport"), (props2 !! "autoResizeViewport"),
    (props1 !! "autoResizeDrawingBuffer"), (props2 !! "autoResizeDrawingBuffer"),
    (props1 !! "useDevicePixels"), (props2 !! "useDevicePixels"); reflexivity.
Qed.

End SetProps.

(** ** AnimationLoop: size, aspect and the callback data *)

Section SizeAndAspect.
Import CallbackData.

Variable floor : float → float.

Implicit Types (this : AnimationLoop.t) (props : AnimationProps) (canvas : Canvas).

Lemma nan_differs (y : float) : (nan =? y)%float = false.
Proof. by rewrite FloatAxioms.eqb_spec. Qed.

Lemma setNeedsRedraw_string this reason :
  AnimationLoop.setNeedsRedraw this (AnimationLoop.str reason) =
    Returned (AnimationLoop.mkLoop
                (AnimationLoop.logical_or (AnimationLoop.needsRedraw this)
                   (AnimationLoop.str reason))
                (AnimationLoop._initialized this) (AnimationLoop._running this)).
Proof. done. Qed.

(** X24. The first [_updateCallbackData] after [_initializeCallbackData]
    always asks for a redraw: width and height were undefined, so the
    drawing buffer counts as resized.  Afterwards [needsRedraw] is the reason
    held before, or else 'drawing buffer resized' - never 'drawing buffer
    aspect changed', which comes second - and the animationProps carry the
    same reason. *)
Theorem first_update_asks_for_redraw this canvas offScreen start now :
  ∃ this' props',
    _updateCallbackData floor this (_initializeCallbackData start) canvas offScreen now =
      Returned (this', props') ∧
    AnimationLoop.needsRedraw this' =
      AnimationLoop.logical_or (AnimationLoop.needsRedraw this)
        (AnimationLoop.str "drawing buffer resized") ∧
    AnimationLoop.truthy (AnimationLoop.needsRedraw this') = true ∧
    needsRedraw props' = AnimationLoop.needsRedraw this'.
Proof.
  unfold _updateCallbackData. destruct (_getSizeAndAspect canvas) as [[w h] a]. simpl.
  do 2 eexists. split; [reflexivity|]. simpl.
  unfold AnimationLoop.logical_or.
  destruct (AnimationLoop.truthy (AnimationLoop.needsRedraw this)) eqn:Hheld; simpl.
  - by rewrite Hheld.
  - done.
Qed.

(** X25. An update that finds the canvas as the animationProps describe it -
    width, height and aspect equal to the recorded ones - leaves the loop
    alone: no redraw reason is raised. *)
Theorem update_of_unchanged_canvas_raises_nothing this props canvas offScreen now :
  strictlyDiffers (_getSizeAndAspect canvas).1.1 (width props) = false →
  strictlyDiffers (_getSizeAndAspect canvas).1.2 (height props) = false →
  strictlyDiffers (_getSizeAndAspect canvas).2 (aspect props) = false →
  ∃ props',
    _updateCallbackData floor this props canvas offScreen now = Returned (this, props') ∧
    needsRedraw props' = AnimationLoop.needsRedraw this.
Proof.
  intros Hw Hh Ha. unfold _updateCallbackData.
  destruct (_getSizeAndAspect canvas) as [[w h] a]. simpl in *.
  rewrite Hw, Hh, Ha. simpl. by eexists.
Qed.

(** X26. A canvas with client size 0 x 0 and a drawing buffer of positive
    height has aspect 0/0, which is NaN and differs from every recorded
    aspect, itself included.  Every update then passes through
    [setNeedsRedraw]: the loop needs a redraw after each one, and when the
    buffer size is unchanged and no reason is held the reason is 'drawing
    buffer aspect changed' - frame after frame. *)
Theorem update_of_collapsed_canvas_always_asks_for_redraw this props canvas offScreen now :
  clientWidth canvas = Some 0%float → clientHeight canvas = Some 0%float →
  (0 <? drawingBufferHeight canvas)%float = true →
  strictlyDiffers (_getSizeAndAspect canvas).2 (aspect props) = true ∧
  ∃ this' props',
    _updateCallbackData floor this props canvas offScreen now = Returned (this', props') ∧
    AnimationLoop.truthy (AnimationLoop.needsRedraw this') = true ∧
    strictlyDiffers (_getSizeAndAspect canvas).2 (aspect props') = true ∧
    (AnimationLoop.truthy (AnimationLoop.needsRedraw this) = false →
     strictlyDiffers (drawingBufferWidth canvas) (width props) = false →
     strictlyDiffers (drawingBufferHeight canvas) (height props) = false →
     AnimationLoop.needsRedraw this' = AnimationLoop.str "drawing buffer aspect changed").
Proof.
  intros Hcw Hch Hheight.
  assert (_getSizeAndAspect canvas =
          (drawingBufferWidth canvas, drawingBufferHeight canvas, nan)) as Hmeasure.
  { unfold _getSizeAndAspect. rewrite Hcw, Hch, Hheight. reflexivity. }
  assert (∀ y, strictlyDiffers nan y = true) as Hnan.
  { intros [y|]; simpl; [by rewrite nan_differs | done]. }
  unfold _updateCallbackData. rewrite Hmeasure. simpl. rewrite !Hnan.
  split; [done|].
  destruct (strictlyDiffers (drawingBufferWidth canvas) (width props)
            || strictlyDiffers (drawingBufferHeight canvas) (height props)) eqn:Hsize.
  - rewrite !setNeedsRedraw_string. simpl.
    do 2 eexists. split; [reflexivity|]. simpl. split_and!; try done.
    + unfold AnimationLoop.logical_or.
      destruct (AnimationLoop.truthy (AnimationLoop.needsRedraw this)) eqn:Hheld; simpl.
      * by rewrite Hheld.
      * done.
    + intros _ Hw Hh. by rewrite Hw, Hh in Hsize.
  - rewrite setNeedsRedraw_string. simpl.
    do 2 eexists. split; [reflexivity|]. simpl. split_and!; try done.
    + unfold AnimationLoop.logical_or.
      by destruct (AnimationLoop.truthy (AnimationLoop.needsRedraw this)) eqn:Hheld.
    + intros Hheld _ _. unfold AnimationLoop.logical_or. by rewrite Hheld.
Qed.

(** X27. A drawing buffer whose height is not positive gives aspect 1,
    whatever the client size: nothing is divided.  Width and height are the
    drawing buffer's in every case. *)
Theorem aspect_of_flat_buffer_is_one canvas :
  (0 <? drawingBufferHeight canvas)%float = false →
  _getSizeAndAspect canvas = (drawingBufferWidth canvas, drawingBufferHeight canvas, 1%float).
Proof.
  intros Hflat. unfold _getSizeAndAspect. rewrite Hflat.
  rewrite andb_false_r. by destruct (_ && _).
Qed.

End SizeAndAspect.

Lemma update_of_unchanged_canvas_raises_nothing_witness :
  ∃ props',
    CallbackData._updateCallbackData (λ x, x) idleLoop
      (CallbackData.mkAnimationProps (Some 800%float) (Some 600%float)
         (Some (400 / 300)%float) AnimationLoop.null 0 0 0 0 AnimationLoop.undefined None)
      visibleCanvas AnimationLoop.undefined 16 = Returned (idleLoop, props') ∧
    CallbackData.needsRedraw props' = AnimationLoop.needsRedraw idleLoop.
Proof.
  apply (update_of_unchanged_canvas_raises_nothing (λ x, x) idleLoop _ visibleCanvas);
    reflexivity.
Defined.

Lemma update_of_collapsed_canvas_always_asks_for_redraw_witness :
  CallbackData.strictlyDiffers (CallbackData._getSizeAndAspect hiddenCanvas).2
    (CallbackData.aspect (CallbackData._initializeCallbackData 0)) = true ∧
  ∃ this' props',
    CallbackData._updateCallbackData (λ x, x) idleLoop (CallbackData._initializeCallbackData 0)
      hiddenCanvas AnimationLoop.undefined 16 = Returned (this', props') ∧
    AnimationLoop.truthy (AnimationLoop.needsRedraw this') = true ∧
    CallbackData.strictlyDiffers (CallbackData._getSizeAndAspect hiddenCanvas).2
      (CallbackData.aspect props') = true ∧
    (AnimationLoop.truthy (AnimationLoop.needsRedraw idleLoop) = false →
     CallbackData.strictlyDiffers (CallbackData.drawingBufferWidth hiddenCanvas)
       (CallbackData.width (CallbackData._initializeCallbackData 0)) = false →
     CallbackData.strictlyDiffers (CallbackData.drawingBufferHeight hiddenCanvas)
       (CallbackData.height (CallbackData._initializeCallbackData 0)) = false →
     AnimationLoop.needsRedraw this' = AnimationLoop.str "drawing buffer aspect changed").
Proof.
  apply (update_of_collapsed_canvas_always_asks_for_redraw (λ x, x) idleLoop
           (CallbackData._initializeCallbackData 0) hiddenCanvas);
    reflexivity.
Defined.

Lemma aspect_of_flat_buffer_is_one_witness :
  CallbackData._getSizeAndAspect (CallbackData.mkCanvas 300 0 (Some 300%float) (Some 0%float)) =
    (300%float, 0%float, 1%float).
Proof. apply aspect_of_flat_buffer_is_one. reflexivity. Defined.
